(** * Leaderboard server (src/server/server.js): model and properties

    The Express handlers of [server.js] are embedded as Rocq functions over
    an explicit store.  JavaScript numbers that can be fractional (the
    result of [Math.random()] and its product with ten) are IEEE 754
    binary64 values, modelled with the Standard Library's [spec_float];
    numbers that are integers by construction ([points], [pointsAwarded],
    timestamps) are [Z], whose sums binary64 computes exactly as long as
    they stay below 2^53.

    Every awaited store call may be rejected; the handlers' [try]/[catch]
    turns a rejection into the error answer.  The executions are
    sequential: one handler runs to its answer before the next starts. *)

From Stdlib Require Import ZArith List String Bool Lia.
From Stdlib Require Import Sorting.Sorted Sorting.Permutation.
From Stdlib Require Import Floats.SpecFloat.
Import ListNotations.
Local Open Scope string_scope.
Local Open Scope list_scope.
Local Open Scope Z_scope.

(** ** JavaScript numbers: binary64 *)

Module Number.

Definition prec : Z := 53.
Definition emax : Z := 1024.

(** [a * b] on JavaScript numbers. *)
Definition mul : spec_float -> spec_float -> spec_float := SFmul prec emax.

(** The literal [10], in canonical form: 5 * 2^50 * 2^-49. *)
Definition ten : spec_float := S754_finite false 5629499534213120 (-49).
(** The literal [1]: 2^52 * 2^-52. *)
Definition one : spec_float := S754_finite false 4503599627370496 (-52).
Definition zero : spec_float := S754_zero false.

Definition is_finite (x : spec_float) : bool :=
  match x with
  | S754_zero _ | S754_finite _ _ _ => true
  | _ => false
  end.

(** [Math.floor] of a finite number, as the integer it denotes.  A shift
    by a negative amount is a shift to the right, which on [Z] rounds
    towards minus infinity.  [Math.floor] leaves NaN and the infinities as
    they are; no integer denotes them, and [0] stands for them here
    ([random_mul_ten_finite] shows that the handler never reaches that
    case). *)
Definition floor (x : spec_float) : Z :=
  match x with
  | S754_finite s m e => Z.shiftl (cond_Zopp s (Zpos m)) e
  | _ => 0
  end.

(** What ECMAScript promises of [Math.random()]: a number value with
    positive sign, greater than or equal to 0 but strictly less than 1. *)
Definition random_range (u : spec_float) : bool :=
  valid_binary prec emax u && SFleb zero u && SFltb u one.

End Number.

(** ** JSON values: request bodies as [express.json()] delivers them *)

Local Unset Elimination Schemes.

Inductive json : Type :=
| JNull
| JBool (b : bool)
| JNumber (x : spec_float)
| JString (s : string)
| JArray (items : list json)
| JObject (fields : list (string * json)).

Local Set Elimination Schemes.

(** A parsed object has one value per key; for a text that repeats a key,
    [JSON.parse] keeps the last occurrence. *)
Fixpoint assoc_last (key : string) (fields : list (string * json)) : option json :=
  match fields with
  | [] => None
  | (k, v) :: rest =>
      match assoc_last key rest with
      | Some v' => Some v'
      | None => if String.eqb k key then Some v else None
      end
  end.

(** [body.key]; [None] is [undefined]. *)
Definition get_field (key : string) (body : json) : option json :=
  match body with
  | JObject fields => assoc_last key fields
  | _ => None
  end.

(** ** Documents and the store *)

(** Identifiers are drawn from a process-wide generator; they are modelled
    by the value of its counter. *)
Definition ObjectId : Type := N.

Module User.

Record t : Type := { _id : ObjectId; username : string; points : Z }.

(** Modelled from the spec: models/User.js is not among the sources; the
    data model gives [points] as an "integer, defaults to 0". *)
Definition default_points : Z := 0.

Definition set_points (u : t) (p : Z) : t :=
  {| _id := _id u; username := username u; points := p |}.

End User.

Module PointHistory.

Record t : Type :=
  { _id : ObjectId; userId : ObjectId; pointsAwarded : Z; timestamp : Z }.

(** A record after [.populate('userId', 'username')]: the reference is
    replaced by the selected fields of the player, or by [null] when no
    player has that identifier. *)
Record populated : Type :=
  { p_id : ObjectId;
    p_userId : option (ObjectId * string);
    p_pointsAwarded : Z;
    p_timestamp : Z }.

End PointHistory.

(** The two collections, each in insertion order. *)
Record Db : Type :=
  { users : list User.t; pointhistories : list PointHistory.t }.

Record World : Type := { db : Db; next_id : N }.

(** Modelled from the spec: models/User.js is not among the sources.  The
    spec gives [username] as a required string and identifiers as opaque;
    how other JSON values are cast is left to the schema, a parameter of
    the handlers.  A cast answers with the stored value or with the message
    of the error it raises. *)
Record Schema : Type :=
  { castUsername : option json -> string + string;
    castObjectId : json -> ObjectId + string }.

Definition hex_digit (c : Ascii.ascii) : option N :=
  let n := Ascii.N_of_ascii c in
  if ((48 <=? n) && (n <=? 57))%N then Some (n - 48)%N
  else if ((97 <=? n) && (n <=? 102))%N then Some (n - 87)%N
  else if ((65 <=? n) && (n <=? 70))%N then Some (n - 55)%N
  else None.

Fixpoint hex_value (s : string) (acc : N) : option N :=
  match s with
  | EmptyString => Some acc
  | String c rest =>
      match hex_digit c with
      | Some d => hex_value rest (16 * acc + d)%N
      | None => None
      end
  end.

(** Modelled from the spec: models/User.js is not among the sources.  This
    schema accepts a JSON string as a username and stores it as it is, and
    rejects an absent username ("ValidationError (bad/missing input, e.g.
    absent username)"); it reads an identifier from a string of 24
    hexadecimal digits.  It is the schema of the examples; the theorems hold
    for every schema. *)
Definition string_schema : Schema :=
  {| castUsername := fun v =>
       match v with
       | Some (JString s) => inl s
       | _ => inr "User validation failed: username"
       end;
     castObjectId := fun j =>
       match j with
       | JString s =>
           if Nat.eqb (String.length s) 24 then
             match hex_value s 0 with
             | Some n => inl n
             | None => inr "Cast to ObjectId failed"
             end
           else inr "Cast to ObjectId failed"
       | _ => inr "Cast to ObjectId failed"
       end |}.

(** ** Awaited calls: state and rejection *)

Inductive result (A : Type) : Type :=
| Ok (a : A)
| Err (message : string).
Arguments Ok {A} a.
Arguments Err {A} message.

Definition Async (A : Type) : Type := World -> result A * World.

Definition ret {A : Type} (a : A) : Async A := fun w => (Ok a, w).

Definition throw {A : Type} (message : string) : Async A :=
  fun w => (Err message, w).

Definition bind {A B : Type} (c : Async A) (k : A -> Async B) : Async B :=
  fun w =>
    match c w with
    | (Ok a, w') => k a w'
    | (Err message, w') => (Err message, w')
    end.

Notation "x <- 'await' c ;; k" := (bind c (fun x => k))
  (at level 61, c at next level, right associativity).

(** What the outside world contributes to one request: the value of
    [Math.random()], the clock, and for each awaited store call whether it
    is rejected (with which message).  A rejected call leaves the store as
    it was. *)
Record Env : Type :=
  { random : spec_float;
    now : Z;
    query_fault : option string;
    save_fault : option string;
    create_fault : option string }.

Definition store_call {A : Type} (fault : option string) (op : World -> A * World)
  : Async A :=
  fun w =>
    match fault with
    | Some message => (Err message, w)
    | None => let (a, w') := op w in (Ok a, w')
    end.

Definition fresh_id : Async ObjectId :=
  fun w => (Ok (next_id w), {| db := db w; next_id := N.succ (next_id w) |}).

(** [.sort({ key: -1 })]: descending, equal keys kept in store order. *)
Fixpoint insert_desc {A : Type} (key : A -> Z) (x : A) (l : list A) : list A :=
  match l with
  | [] => [x]
  | y :: rest =>
      if key x <? key y then y :: insert_desc key x rest else x :: l
  end.

Definition sort_desc {A : Type} (key : A -> Z) (l : list A) : list A :=
  fold_right (insert_desc key) [] l.

(** [a] may stand before [b] in a descending order by [key]. *)
Definition desc {A : Type} (key : A -> Z) (a b : A) : Prop := key b <= key a.

Definition with_users (w : World) (us : list User.t) : World :=
  {| db := {| users := us; pointhistories := pointhistories (db w) |};
     next_id := next_id w |}.

Definition with_pointhistories (w : World) (hs : list PointHistory.t) : World :=
  {| db := {| users := users (db w); pointhistories := hs |};
     next_id := next_id w |}.

Module UserModel.

Definition countDocuments (fault : option string) : Async nat :=
  store_call fault (fun w => (List.length (users (db w)), w)).

(** [User.find().sort({ points: -1 })] *)
Definition find_sorted (fault : option string) : Async (list User.t) :=
  store_call fault (fun w => (sort_desc User.points (users (db w)), w)).

Definition lookup (oid : ObjectId) (us : list User.t) : option User.t :=
  find (fun u => N.eqb (User._id u) oid) us.

(** [User.findById(v)]: [undefined] and [null] query for [_id: null] and
    match nothing; any other value is cast first, and a failed cast
    rejects. *)
Definition findById (schema : Schema) (fault : option string) (v : option json)
  : Async (option User.t) :=
  match v with
  | None | Some JNull => store_call fault (fun w => (None, w))
  | Some j =>
      match castObjectId schema j with
      | inl oid => store_call fault (fun w => (lookup oid (users (db w)), w))
      | inr message => throw message
      end
  end.

(** [new User({ username: v })]: the identifier is generated at
    construction; the cast of [v] is kept for validation. *)
Definition create (schema : Schema) (v : option json)
  : Async (ObjectId * (string + string)) :=
  oid <- await fresh_id ;;
  ret (oid, castUsername schema v).

(** [user.save()] on a new document: validation, then an insert. *)
Definition save_new (fault : option string) (draft : ObjectId * (string + string))
  : Async User.t :=
  match snd draft with
  | inr message => throw message
  | inl name =>
      let u := {| User._id := fst draft; User.username := name;
                  User.points := User.default_points |} in
      store_call fault (fun w => (u, with_users w (users (db w) ++ [u])))
  end.

(** [user.save()] on a document that was read and then modified in
    [points]: the modified path is written to the stored document of the
    same [_id]. *)
Definition write_points (u : User.t) (us : list User.t) : list User.t :=
  map (fun v => if N.eqb (User._id v) (User._id u)
                then User.set_points v (User.points u) else v) us.

Definition save_points (fault : option string) (u : User.t) : Async unit :=
  store_call fault (fun w => (tt, with_users w (write_points u (users (db w))))).

Fixpoint create_all (schema : Schema) (names : list string)
  : Async (list (ObjectId * (string + string))) :=
  match names with
  | [] => ret []
  | name :: rest =>
      d <- await create schema (Some (JString name)) ;;
      ds <- await create_all schema rest ;;
      ret (d :: ds)
  end.

Fixpoint validate_all (drafts : list (ObjectId * (string + string)))
  : string + list User.t :=
  match drafts with
  | [] => inr []
  | (oid, inr message) :: _ => inl message
  | (oid, inl name) :: rest =>
      match validate_all rest with
      | inl message => inl message
      | inr us =>
          inr ({| User._id := oid; User.username := name;
                  User.points := User.default_points |} :: us)
      end
  end.

(** [User.insertMany(docs)]: every document is built and validated before
    anything is written. *)
Definition insertMany (schema : Schema) (fault : option string) (names : list string)
  : Async (list User.t) :=
  drafts <- await create_all schema names ;;
  match validate_all drafts with
  | inl message => throw message
  | inr us => store_call fault (fun w => (us, with_users w (users (db w) ++ us)))
  end.

End UserModel.

Module PointHistoryModel.

(** [PointHistory.create({ userId, pointsAwarded })]; [timestamp] takes
    its default, the current time. *)
Definition create (fault : option string) (time : Z) (uid : ObjectId) (amount : Z)
  : Async PointHistory.t :=
  oid <- await fresh_id ;;
  let h := {| PointHistory._id := oid; PointHistory.userId := uid;
              PointHistory.pointsAwarded := amount;
              PointHistory.timestamp := time |} in
  store_call fault (fun w =>
    (h, with_pointhistories w (pointhistories (db w) ++ [h]))).

Definition populate (us : list User.t) (h : PointHistory.t) : PointHistory.populated :=
  {| PointHistory.p_id := PointHistory._id h;
     PointHistory.p_userId :=
       match UserModel.lookup (PointHistory.userId h) us with
       | Some u => Some (User._id u, User.username u)
       | None => None
       end;
     PointHistory.p_pointsAwarded := PointHistory.pointsAwarded h;
     PointHistory.p_timestamp := PointHistory.timestamp h |}.

(** [PointHistory.find().populate('userId', 'username').sort({ timestamp: -1 })] *)
Definition find_populated_sorted (fault : option string)
  : Async (list PointHistory.populated) :=
  store_call fault (fun w =>
    (map (populate (users (db w)))
         (sort_desc PointHistory.timestamp (pointhistories (db w))), w)).

End PointHistoryModel.

(** ** The server *)

Inductive Payload : Type :=
| Users (us : list User.t)
| Created (u : User.t)
| Claimed (pointsAwarded totalPoints : Z)
| History (hs : list PointHistory.populated)
| Error (error : string).

Record Response : Type := { status : Z; json_body : Payload }.

Definition Handler : Type := World -> Response * World.

(** [try { ... } catch (error) { res.status(code).json({ error: error.message }) }] *)
Definition try_catch (body : Async Response) (code : Z) : Handler :=
  fun w =>
    match body w with
    | (Ok r, w') => (r, w')
    | (Err message, w') => ({| status := code; json_body := Error message |}, w')
    end.

Definition initialUsers : list string :=
  ["Rahul"; "Kamal"; "Sanak"; "Amit"; "Priya"; "Neha"; "Vikas"; "Anjali";
   "Rohit"; "Simran"].

(** [mongoose.connection.once('open', ...)] *)
Definition seed (schema : Schema) (env : Env) : Async unit :=
  count <- await UserModel.countDocuments (query_fault env) ;;
  if Nat.eqb count 0 then
    _ <- await UserModel.insertMany schema (save_fault env) initialUsers ;;
    ret tt
  else ret tt.

(** [app.get('/users')] *)
Definition get_users (env : Env) : Handler :=
  try_catch
    (us <- await UserModel.find_sorted (query_fault env) ;;
     ret {| status := 200; json_body := Users us |})
    500.

(** [app.post('/users')] *)
Definition post_users (schema : Schema) (env : Env) (body : json) : Handler :=
  try_catch
    (draft <- await UserModel.create schema (get_field "username" body) ;;
     user <- await UserModel.save_new (save_fault env) draft ;;
     ret {| status := 201; json_body := Created user |})
    400.

(** [Math.floor(Math.random() * 10) + 1] *)
Definition draw (u : spec_float) : Z :=
  Number.floor (Number.mul u Number.ten) + 1.

(** [app.post('/claim-points')] *)
Definition post_claim_points (schema : Schema) (env : Env) (body : json) : Handler :=
  try_catch
    (let pointsAwarded := draw (random env) in
     found <- await UserModel.findById schema (query_fault env)
                      (get_field "userId" body) ;;
     match found with
     | None => ret {| status := 404; json_body := Error "User not found" |}
     | Some user =>
         let user := User.set_points user (User.points user + pointsAwarded) in
         _ <- await UserModel.save_points (save_fault env) user ;;
         _ <- await PointHistoryModel.create (create_fault env) (now env)
                      (User._id user) pointsAwarded ;;
         ret {| status := 200;
                json_body := Claimed pointsAwarded (User.points user) |}
     end)
    500.

(** [app.get('/point-history')] *)
Definition get_point_history (env : Env) : Handler :=
  try_catch
    (history <- await PointHistoryModel.find_populated_sorted (query_fault env) ;;
     ret {| status := 200; json_body := History history |})
    500.

(** ** Sequential executions *)

Inductive Request : Type :=
| Startup
| GetUsers
| PostUsers (body : json)
| PostClaimPoints (body : json)
| GetPointHistory.

Definition step (schema : Schema) (env : Env) (req : Request) (w : World) : World :=
  match req with
  | Startup => snd (seed schema env w)
  | GetUsers => snd (get_users env w)
  | PostUsers body => snd (post_users schema env body w)
  | PostClaimPoints body => snd (post_claim_points schema env body w)
  | GetPointHistory => snd (get_point_history env w)
  end.

Fixpoint run (schema : Schema) (trace : list (Env * Request)) (w : World) : World :=
  match trace with
  | [] => w
  | (env, req) :: rest => run schema rest (step schema env req w)
  end.

Definition empty_world (n : N) : World :=
  {| db := {| users := []; pointhistories := [] |}; next_id := n |}.

(** ** The award invariant *)

Definition award_sum (uid : ObjectId) (hs : list PointHistory.t) : Z :=
  fold_right
    (fun h acc =>
       if N.eqb (PointHistory.userId h) uid
       then PointHistory.pointsAwarded h + acc else acc)
    0 hs.

Definition consistent (d : Db) : bool :=
  forallb (fun u => User.points u =? award_sum (User._id u) (pointhistories d))
          (users d).

(** A claim whose player save went through and whose record insert was
    rejected. *)
Definition torn_claim (schema : Schema) (env : Env) (req : Request) (w : World) : bool :=
  match req with
  | PostClaimPoints body =>
      match UserModel.findById schema (query_fault env)
              (get_field "userId" body) w with
      | (Ok (Some _), _) =>
          match save_fault env, create_fault env with
          | None, Some _ => true
          | _, _ => false
          end
      | _ => false
      end
  | _ => false
  end.

Fixpoint untorn (schema : Schema) (trace : list (Env * Request)) (w : World) : bool :=
  match trace with
  | [] => true
  | (env, req) :: rest =>
      negb (torn_claim schema env req w)
      && untorn schema rest (step schema env req w)
  end.

(** The stored player that the [userId] of a claim stands for, if there is
    one: the value is an identifier, and a stored player has it. *)
Definition named_player (schema : Schema) (body : json) (w : World)
  : option User.t :=
  match get_field "userId" body with
  | None | Some JNull => None
  | Some j =>
      match castObjectId schema j with
      | inl oid => UserModel.lookup oid (users (db w))
      | inr _ => None
      end
  end.

(** The message of the error raised when the [userId] of a claim is cast
    to an identifier, if it cannot be cast. *)
Definition cast_error (schema : Schema) (body : json) : option string :=
  match get_field "userId" body with
  | None | Some JNull => None
  | Some j =>
      match castObjectId schema j with
      | inl _ => None
      | inr message => Some message
      end
  end.

(** Identifiers in the store are older than the generator's counter. *)
Definition ids_below (w : World) : Prop :=
  (forall u, In u (users (db w)) -> (User._id u < next_id w)%N) /\
  (forall h, In h (pointhistories (db w)) -> (PointHistory.userId h < next_id w)%N).

(** [w'] is [w] with new players of zero points added (possibly none) and
    the generator advanced. *)
Definition extends (w w' : World) : Prop :=
  pointhistories (db w') = pointhistories (db w) /\
  (next_id w <= next_id w')%N /\
  exists extra,
    users (db w') = users (db w) ++ extra /\
    Forall (fun u => User.points u = 0 /\
                     (next_id w <= User._id u < next_id w')%N) extra.

(** The documents [User.insertMany] builds from [names] when the
    generator stands at [n]: before validation, and as stored. *)
Fixpoint drafts_from (schema : Schema) (n : N) (names : list string)
  : list (ObjectId * (string + string)) :=
  match names with
  | [] => []
  | name :: rest =>
      (n, castUsername schema (Some (JString name)))
      :: drafts_from schema (N.succ n) rest
  end.

Fixpoint new_users (n : N) (names : list string) : list User.t :=
  match names with
  | [] => []
  | name :: rest =>
      {| User._id := n; User.username := name;
         User.points := User.default_points |}
      :: new_users (N.succ n) rest
  end.

(** ** Sample inputs *)

(** An environment without faults; [Math.random()] returns 0.5. *)
Definition calm : Env :=
  {| random := S754_finite false 4503599627370496 (-53);
     now := 1700000000000;
     query_fault := None; save_fault := None; create_fault := None |}.

(** The same, but the insert of the award record is rejected. *)
Definition record_insert_fails : Env :=
  {| random := S754_finite false 4503599627370496 (-53);
     now := 1700000000000;
     query_fault := None; save_fault := None;
     create_fault := Some "connection lost" |}.

(** The store after startup on an empty collection. *)
Definition seeded : World := snd (seed string_schema calm (empty_world 0)).

(** A claim for the first seeded player, Rahul. *)
Definition claim_first : json :=
  JObject [("userId", JString "000000000000000000000000")].

(** A claim for an identifier no player has. *)
Definition claim_unknown : json :=
  JObject [("userId", JString "0000000000000000000000ff")].

(** A claim whose identifier is not one. *)
Definition claim_malformed : json := JObject [("userId", JString "abc")].

(** An environment in which saving a player is rejected. *)
Definition player_save_fails : Env :=
  {| random := S754_finite false 4503599627370496 (-53);
     now := 1700000000000;
     query_fault := None; save_fault := Some "connection lost";
     create_fault := None |}.

(** A later moment without faults; [Math.random()] returns [1 - 2^-53]. *)
Definition calm_later : Env :=
  {| random := S754_finite false 9007199254740991 (-53);
     now := 1700000060000;
     query_fault := None; save_fault := None; create_fault := None |}.

(** An execution with a registration, claims (one of them torn, one for an
    unknown identifier) and reads. *)
Definition sample_trace : list (Env * Request) :=
  [(calm, Startup); (calm, PostClaimPoints claim_first);
   (record_insert_fails, PostClaimPoints claim_first);
   (calm, PostUsers (JObject [("username", JString "Test")]));
   (calm_later, PostClaimPoints claim_first);
   (calm, PostClaimPoints claim_unknown);
   (calm, GetUsers); (calm, GetPointHistory)].

Definition register_test : json := JObject [("username", JString "Test")].

Definition register_test_with_points : json :=
  JObject [("username", JString "Test");
           ("points", JNumber (S754_finite false 5629499534213120 (-43)))].

(** ** The client (src/app/src/App.jsx) *)

(** A JavaScript string is modelled by the sequence of its code units,
    each below 256.  There the white space and line terminators that
    [String.prototype.trim] strips are the code units 9 to 13, 32 and 160. *)
Definition is_space (c : Ascii.ascii) : bool :=
  let n := Ascii.N_of_ascii c in
  (((9 <=? n) && (n <=? 13)) || (n =? 32) || (n =? 160))%N.

Fixpoint trim_start (s : string) : string :=
  match s with
  | EmptyString => EmptyString
  | String c rest => if is_space c then trim_start rest else s
  end.

Fixpoint trim_end (s : string) : string :=
  match s with
  | EmptyString => EmptyString
  | String c rest =>
      match trim_end rest with
      | EmptyString => if is_space c then EmptyString else String c EmptyString
      | kept => String c kept
      end
  end.

(** [s.trim()] *)
Definition trim (s : string) : string := trim_end (trim_start s).

(** [!s] for a string: only the empty string is falsy. *)
Definition falsy (s : string) : bool :=
  match s with
  | EmptyString => true
  | String _ _ => false
  end.

(** A string of white space only (the empty string is one). *)
Fixpoint blank (s : string) : bool :=
  match s with
  | EmptyString => true
  | String c rest => is_space c && blank rest
  end.

Module App.

(** The component's state, one field per [useState]. *)
Record State : Type :=
  { users : list User.t;
    selectedUser : string;
    newUsername : string;
    lastPoints : option Z;
    loading : bool;
    pointHistory : list PointHistory.populated }.

Definition initial : State :=
  {| users := []; selectedUser := ""; newUsername := ""; lastPoints := None;
     loading := false; pointHistory := [] |}.

Definition setUsers (s : State) (us : list User.t) : State :=
  {| users := us; selectedUser := selectedUser s; newUsername := newUsername s;
     lastPoints := lastPoints s; loading := loading s;
     pointHistory := pointHistory s |}.

Definition setNewUsername (s : State) (name : string) : State :=
  {| users := users s; selectedUser := selectedUser s; newUsername := name;
     lastPoints := lastPoints s; loading := loading s;
     pointHistory := pointHistory s |}.

Definition setLastPoints (s : State) (p : option Z) : State :=
  {| users := users s; selectedUser := selectedUser s;
     newUsername := newUsername s; lastPoints := p; loading := loading s;
     pointHistory := pointHistory s |}.

Definition setLoading (s : State) (b : bool) : State :=
  {| users := users s; selectedUser := selectedUser s;
     newUsername := newUsername s; lastPoints := lastPoints s; loading := b;
     pointHistory := pointHistory s |}.

Definition setPointHistory (s : State) (hs : list PointHistory.populated) : State :=
  {| users := users s; selectedUser := selectedUser s;
     newUsername := newUsername s; lastPoints := lastPoints s;
     loading := loading s; pointHistory := hs |}.

(** [axios.get] and [axios.post] against the server: the promise resolves
    with the data of the answer when its status is of the range 2xx, and
    is rejected otherwise. *)
Definition axios (h : Handler) : Async Payload :=
  fun w =>
    let (r, w') := h w in
    if (200 <=? status r) && (status r <? 300)
    then (Ok (json_body r), w')
    else (Err "Request failed", w').

(** [fetchPointHistory]: a rejection is logged and nothing is set.  (The
    route answers 200 with a history only, see [get_point_history_run].) *)
Definition fetchPointHistory (env : Env) (s : State) (w : World) : State * World :=
  match axios (get_point_history env) w with
  | (Ok (History hs), w') => (setPointHistory s hs, w')
  | (_, w') => (s, w')
  end.

(** [fetchUsers]: the data is sorted again,
    [response.data.sort((a, b) => b.points - a.points)], a stable sort. *)
Definition fetchUsers (env : Env) (s : State) (w : World) : State * World :=
  match axios (get_users env) w with
  | (Ok (Users us), w') => (setUsers s (sort_desc User.points us), w')
  | (_, w') => (s, w')
  end.

(** [addUser]; [posting] and [fetching] are the environments of its two
    requests.  The list is fetched again without being awaited: it is the
    last thing the function does. *)
Definition addUser (schema : Schema) (posting fetching : Env) (s : State) (w : World)
  : State * World :=
  if falsy (trim (newUsername s)) then (s, w)
  else
    match axios (post_users schema posting
                   (JObject [("username", JString (newUsername s))])) w with
    | (Ok _, w') => fetchUsers fetching (setNewUsername s "") w'
    | (Err _, w') => (s, w')
    end.

(** [response.data.pointsAwarded] *)
Definition pointsAwarded_of (data : Payload) : option Z :=
  match data with
  | Claimed a _ => Some a
  | _ => None
  end.

(** [claimPoints]; [claiming], [fetching] and [listing] are the
    environments of its three requests. *)
Definition claimPoints (schema : Schema) (claiming fetching listing : Env)
           (s : State) (w : World) : State * World :=
  if falsy (selectedUser s) then (s, w)
  else
    let s := setLoading s true in
    match axios (post_claim_points schema claiming
                   (JObject [("userId", JString (selectedUser s))])) w with
    | (Ok data, w1) =>
        let s := setLastPoints s (pointsAwarded_of data) in
        let (s, w2) := fetchUsers fetching s w1 in
        let (s, w3) := fetchPointHistory listing s w2 in
        (setLoading s false, w3)
    | (Err _, w1) => (setLoading s false, w1)
    end.

(** The select's [onChange]. *)
Definition selectUser (value : string) (s : State) : State :=
  setLastPoints
    {| users := users s; selectedUser := value; newUsername := newUsername s;
       lastPoints := lastPoints s; loading := loading s;
       pointHistory := pointHistory s |}
    None.

End App.

(** A client that typed a name with a leading space, and one that chose
    Rahul. *)
Definition typed_name : App.State := App.setNewUsername App.initial " Test".

Definition typed_blanks : App.State := App.setNewUsername App.initial "  ".

Definition chose_first : App.State :=
  App.selectUser "000000000000000000000000" App.initial.

(** ** What executions keep *)

(** Every [Math.random()] of the trace is of the range. *)
Definition in_range (trace : list (Env * Request)) : bool :=
  forallb (fun s => Number.random_range (random (fst s))) trace.

(** The record a claim for [u] inserts. *)
Definition award_record (env : Env) (w : World) (u : User.t) : PointHistory.t :=
  {| PointHistory._id := next_id w;
     PointHistory.userId := User._id u;
     PointHistory.pointsAwarded := draw (random env);
     PointHistory.timestamp := now env |}.

(** [w'] is [w] after a claim whose player save was accepted; the record
    was inserted, or its insert was rejected. *)
Definition claim_saved (env : Env) (w w' : World) : Prop :=
  exists u,
    In u (users (db w)) /\
    users (db w')
    = UserModel.write_points
        (User.set_points u (User.points u + draw (random env))) (users (db w)) /\
    next_id w' = N.succ (next_id w) /\
    (pointhistories (db w') = pointhistories (db w) \/
     pointhistories (db w') = pointhistories (db w) ++ [award_record env w u]).

(** [extends], with the new players' identifiers pairwise distinct. *)
Definition appended (w w' : World) : Prop :=
  pointhistories (db w') = pointhistories (db w) /\
  (next_id w <= next_id w')%N /\
  exists extra,
    users (db w') = users (db w) ++ extra /\
    Forall (fun u => User.points u = 0 /\
                     (next_id w <= User._id u < next_id w')%N) extra /\
    NoDup (map User._id extra).

(** All identifiers of the store are older than the generator's counter
    and pairwise distinct. *)
Definition ids_sound (w : World) : Prop :=
  (forall u, In u (users (db w)) -> (User._id u < next_id w)%N) /\
  (forall h, In h (pointhistories (db w)) -> (PointHistory._id h < next_id w)%N) /\
  NoDup (map User._id (users (db w))
         ++ map PointHistory._id (pointhistories (db w))).

(** Every record awards 1 to 10 points to a stored player, and every
    player has at least the points recorded for it. *)
Definition awards_sound (d : Db) : Prop :=
  (forall h, In h (pointhistories d) ->
     1 <= PointHistory.pointsAwarded h <= 10 /\
     exists u, In u (users d) /\ User._id u = PointHistory.userId h) /\
  (forall u, In u (users d) ->
     0 <= award_sum (User._id u) (pointhistories d) <= User.points u).

(** From [w] to [w']: the players of [w] are still there, in place, with
    the same identifier and username and no fewer points; players and
    records may have been added at the end. *)
Definition grown (w w' : World) : Prop :=
  exists kept extra more,
    users (db w') = kept ++ extra /\
    Forall2
      (fun v v' =>
         User._id v' = User._id v /\ User.username v' = User.username v /\
         User.points v <= User.points v')
      (users (db w)) kept /\
    pointhistories (db w') = pointhistories (db w) ++ more.

(** The number of claim requests of a trace. *)
Fixpoint claims_of (trace : list (Env * Request)) : Z :=
  match trace with
  | [] => 0
  | (_, PostClaimPoints _) :: rest => 1 + claims_of rest
  | _ :: rest => claims_of rest
  end.

(** ** Facts on the binary64 rounding used by [Number.mul] *)

Section Rounding.

Lemma digits2_pos_size (p : positive) : digits2_pos p = Pos.size p.
Proof. induction p; simpl; congruence. Qed.

Lemma digits2_pos_bounds (p : positive) :
  2 ^ (Zpos (digits2_pos p) - 1) <= Zpos p < 2 ^ Zpos (digits2_pos p).
Proof.
  rewrite digits2_pos_size. split.
  - pose proof (Pos.size_le p) as H.
    assert (Hz : 2 ^ Zpos (Pos.size p) <= 2 * Zpos p).
    { rewrite <- Pos2Z.inj_pow. change (2 * Zpos p) with (Zpos p~0).
      now apply Pos2Z.pos_le_pos. }
    replace (Zpos (Pos.size p)) with (Zpos (Pos.size p) - 1 + 1) in Hz by lia.
    rewrite Z.pow_add_r in Hz by lia. lia.
  - pose proof (Pos.size_gt p) as H.
    rewrite <- Pos2Z.inj_pow. now apply Pos2Z.pos_lt_pos.
Qed.

Lemma iter_pos_nat {A : Type} (f : A -> A) (p : positive) (x : A) :
  iter_pos f p x = Nat.iter (Pos.to_nat p) f x.
Proof.
  revert x. induction p as [p IH | p IH | ]; intros x; cbn [iter_pos].
  - rewrite !IH, Pos2Nat.inj_xI, <- Nat.iter_add.
    replace (Pos.to_nat p + Pos.to_nat p)%nat with (2 * Pos.to_nat p)%nat by lia.
    now rewrite <- Nat.iter_succ_r.
  - rewrite !IH, Pos2Nat.inj_xO, <- Nat.iter_add. f_equal. lia.
  - reflexivity.
Qed.

Lemma shr_1_m (x : shr_record) :
  0 <= shr_m x -> shr_m (shr_1 x) = shr_m x / 2.
Proof.
  destruct x as [m r s]; cbn [shr_m]. intros Hm.
  destruct m as [ | [p | p | ] | p ]; cbn [shr_1 shr_m]; try lia.
  - reflexivity.
  - rewrite Pos2Z.inj_xI. apply Z.div_unique with 1; lia.
  - rewrite Pos2Z.inj_xO. apply Z.div_unique with 0; lia.
  - reflexivity.
Qed.

Lemma shr_1_r (x : shr_record) :
  0 <= shr_m x -> shr_r (shr_1 x) = Z.odd (shr_m x).
Proof.
  destruct x as [m r s]; simpl. intros Hm.
  destruct m as [ | [p | p | ] | p ]; simpl; try reflexivity; lia.
Qed.

Lemma iter_shr_1_m (k : nat) (x : shr_record) :
  0 <= shr_m x -> shr_m (Nat.iter k shr_1 x) = shr_m x / 2 ^ Z.of_nat k.
Proof.
  intros Hm. induction k as [ | k IH ].
  - simpl. now rewrite Z.div_1_r.
  - rewrite Nat.iter_succ, shr_1_m, IH.
    + rewrite Nat2Z.inj_succ, Z.pow_succ_r by lia.
      rewrite Z.div_div by lia. f_equal. lia.
    + rewrite IH. apply Z.div_pos; lia.
Qed.

Lemma iter_shr_1_r (k : nat) (x : shr_record) :
  0 <= shr_m x ->
  shr_r (Nat.iter (S k) shr_1 x) = Z.odd (shr_m x / 2 ^ Z.of_nat k).
Proof.
  intros Hm. rewrite Nat.iter_succ, shr_1_r.
  - now rewrite iter_shr_1_m.
  - rewrite iter_shr_1_m by assumption. apply Z.div_pos; lia.
Qed.

(** Shifting [m] right by [n > 0] bits and rounding to nearest-even: the
    rounded mantissa is within half a unit of [m / 2^n]. *)
Lemma shr_round_bounds (m : Z) (e : Z) (n : positive) :
  0 <= m ->
  let mrs := fst (shr (shr_record_of_loc m loc_Exact) e (Zpos n)) in
  let m' := round_nearest_even (shr_m mrs) (loc_of_shr_record mrs) in
  m / 2 ^ Zpos n <= m' /\ 2 * m' * 2 ^ Zpos n <= 2 * m + 2 ^ Zpos n.
Proof.
  intros Hm. cbn zeta. unfold shr. cbn [fst shr_record_of_loc].
  rewrite iter_pos_nat.
  set (x0 := {| shr_m := m; shr_r := false; shr_s := false |}).
  destruct (Pos2Nat.is_succ n) as [k Hk]. rewrite Hk.
  assert (Hn : Zpos n = Z.of_nat k + 1) by lia.
  pose proof (iter_shr_1_m (S k) x0 Hm) as Hq.
  pose proof (iter_shr_1_r k x0 Hm) as Hr.
  change (shr_m x0) with m in Hq, Hr.
  replace (Z.of_nat (S k)) with (Zpos n) in Hq by lia.
  set (q := m / 2 ^ Zpos n) in *.
  assert (Hp : 0 < 2 ^ Z.of_nat k) by (apply Z.pow_pos_nonneg; lia).
  assert (Hp2 : 2 ^ Zpos n = 2 * 2 ^ Z.of_nat k).
  { rewrite Hn, Z.pow_add_r by lia. lia. }
  assert (Hq0 : 0 <= q) by (apply Z.div_pos; lia).
  assert (Hqm : q * 2 ^ Zpos n <= m).
  { unfold q. pose proof (Z.mul_div_le m (2 ^ Zpos n)). lia. }
  destruct (Nat.iter (S k) shr_1 x0) as [m1 r1 s1].
  cbn [shr_m shr_r] in *. subst m1.
  destruct r1.
  - (* the bit below the cut is set *)
    assert (Hh : (2 * q + 1) * 2 ^ Z.of_nat k <= m).
    { set (h := m / 2 ^ Z.of_nat k) in *.
      assert (Hh1 : h / 2 = q).
      { unfold h, q. rewrite Z.div_div by lia. f_equal. lia. }
      assert (Hh2 : h = 2 * (h / 2) + 1).
      { pose proof (Z.div_mod h 2) as Hd. rewrite Zmod_odd, <- Hr in Hd. lia. }
      pose proof (Z.mul_div_le m (2 ^ Z.of_nat k)) as Hd. fold h in Hd.
      rewrite <- Hh1. nia. }
    assert (Hup : round_nearest_even q (loc_of_shr_record
              {| shr_m := q; shr_r := true; shr_s := s1 |}) <= q + 1
            /\ q <= round_nearest_even q (loc_of_shr_record
              {| shr_m := q; shr_r := true; shr_s := s1 |})).
    { destruct s1; simpl; [lia | destruct (Z.even q); lia]. }
    destruct Hup as [Hup Hlo]. split; [exact Hlo | ]. nia.
  - assert (Hsame : round_nearest_even q (loc_of_shr_record
              {| shr_m := q; shr_r := false; shr_s := s1 |}) = q).
    { destruct s1; reflexivity. }
    rewrite Hsame. split; [lia | nia].
Qed.

Lemma Zdigits2_bounds (m : Z) :
  0 < m -> 2 ^ (Zdigits2 m - 1) <= m < 2 ^ Zdigits2 m.
Proof.
  destruct m as [ | p | p ]; try lia. intros _. apply digits2_pos_bounds.
Qed.

(** One [shr_fexp] step from an exact mantissa: the number of bits
    dropped, the truncated mantissa, and the bound on its rounding. *)
Lemma shr_fexp_exact (prec emax m e : Z) (mrs : shr_record) (e' : Z) :
  0 <= m ->
  shr_fexp prec emax m e loc_Exact = (mrs, e') ->
  let n := Z.max 0 (fexp prec emax (Zdigits2 m + e) - e) in
  let m' := round_nearest_even (shr_m mrs) (loc_of_shr_record mrs) in
  e' = e + n /\ shr_m mrs = m / 2 ^ n /\
  shr_m mrs <= m' /\ 2 * m' * 2 ^ n <= 2 * m + 2 ^ n.
Proof.
  intros Hm. unfold shr_fexp. cbn zeta.
  set (nz := fexp prec emax (Zdigits2 m + e) - e).
  destruct nz as [ | n | n ] eqn:Hnz.
  - cbn [shr shr_record_of_loc]. intros [= <- <-].
    cbn [shr_m loc_of_shr_record round_nearest_even].
    rewrite Z.max_id, Z.pow_0_r, Z.div_1_r. lia.
  - pose proof (shr_round_bounds m e n Hm) as Hb. cbn zeta in Hb.
    intros Hs. rewrite Hs in Hb. cbn [fst] in Hb.
    replace (Z.max 0 (Zpos n)) with (Zpos n) by lia.
    assert (He : e' = e + Zpos n).
    { unfold shr in Hs. now inversion Hs. }
    assert (Hq : shr_m mrs = m / 2 ^ Zpos n).
    { unfold shr in Hs. inversion Hs as [[Hi He']].
      rewrite iter_pos_nat, iter_shr_1_m by exact Hm.
      cbn [shr_record_of_loc shr_m]. now rewrite positive_nat_Z. }
    rewrite <- Hq in Hb. tauto.
  - cbn [shr shr_record_of_loc]. intros [= <- <-].
    cbn [shr_m loc_of_shr_record round_nearest_even].
    replace (Z.max 0 (Zneg n)) with 0 by lia.
    rewrite Z.pow_0_r, Z.div_1_r. lia.
Qed.

Lemma shiftl_lt (a e c K : Z) :
  0 <= a -> 0 <= K -> 0 <= e + K ->
  a * 2 ^ (e + K) < c * 2 ^ K -> Z.shiftl a e < c.
Proof.
  intros Ha HK HeK Hlt.
  assert (HpK : 0 < 2 ^ K) by (apply Z.pow_pos_nonneg; lia).
  destruct (Z.le_gt_cases 0 e) as [He | He].
  - rewrite Z.shiftl_mul_pow2 by exact He.
    rewrite Z.pow_add_r in Hlt by lia.
    assert (0 < 2 ^ e) by (apply Z.pow_pos_nonneg; lia). nia.
  - rewrite Z.shiftl_div_pow2 by lia.
    assert (Hp : 0 < 2 ^ (- e)) by (apply Z.pow_pos_nonneg; lia).
    apply Z.div_lt_upper_bound; [exact Hp | ].
    replace K with ((e + K) + (- e)) in Hlt at 2 by lia.
    rewrite (Z.pow_add_r 2 (e + K) (- e)) in Hlt by lia.
    assert (0 < 2 ^ (e + K)) by (apply Z.pow_pos_nonneg; lia). nia.
Qed.

Lemma pow2_lt_inv (a b : Z) : 0 <= b -> 2 ^ a < 2 ^ b -> a < b.
Proof. intros Hb H. apply (Z.pow_lt_mono_r_iff 2); lia. Qed.

(** A mantissa [m] with exponent [e <= -53] and fewer than 54 bits is a
    number below one; its product with ten rounds to a number below ten. *)
Lemma mul_ten_below (m : positive) (e : Z) :
  -1074 <= e <= -53 -> Zpos m < 2 ^ 53 ->
  let r := binary_round_aux Number.prec Number.emax false
             (Zpos (m * 5629499534213120)) (e + -49) loc_Exact in
  Number.is_finite r = true /\ 0 <= Number.floor r <= 9.
Proof.
  intros He Hm. cbn zeta. unfold binary_round_aux.
  set (M := Zpos (m * 5629499534213120)).
  set (E := e + -49).
  assert (HM : M = Zpos m * 5629499534213120) by (unfold M; lia).
  assert (HM0 : 0 < M) by (unfold M; lia).
  destruct (shr_fexp Number.prec Number.emax M E loc_Exact)
    as [mrs1 e1] eqn:H1.
  pose proof (shr_fexp_exact _ _ M E mrs1 e1 ltac:(lia) H1) as Hs1.
  cbn zeta in Hs1. destruct Hs1 as (He1 & Hq1 & Hlo1 & Hhi1).
  set (m2 := round_nearest_even (shr_m mrs1) (loc_of_shr_record mrs1)) in *.
  set (n1 := Z.max 0 (fexp Number.prec Number.emax (Zdigits2 M + E) - E)) in *.
  assert (Hm2 : 0 <= m2).
  { assert (0 <= shr_m mrs1); [ | lia].
    rewrite Hq1. apply Z.div_pos; [lia | apply Z.pow_pos_nonneg; lia]. }
  destruct (shr_fexp Number.prec Number.emax m2 e1 loc_Exact)
    as [mrs2 e2] eqn:H2.
  pose proof (shr_fexp_exact _ _ m2 e1 mrs2 e2 Hm2 H2) as Hs2.
  cbn zeta in Hs2. destruct Hs2 as (He2 & Hq2 & _ & _).
  set (n2 := Z.max 0 (fexp Number.prec Number.emax (Zdigits2 m2 + e1) - e1)) in *.
  (* size of the exact product *)
  change (2 ^ 53) with 9007199254740992 in Hm.
  pose proof (Zdigits2_bounds M HM0) as [Hd1 Hd2].
  assert (Hd0 : 0 < Zdigits2 M) by (unfold M; simpl; lia).
  assert (Hd : Zdigits2 M <= 106).
  { assert (Zdigits2 M - 1 < 106); [ | lia].
    apply pow2_lt_inv; [lia | ].
    change (2 ^ 106) with 81129638414606681695789005144064. lia. }
  assert (Hn1 : 0 <= n1 <= 53).
  { unfold n1, fexp, emin, Number.prec, Number.emax, E. lia. }
  assert (Hp1 : 0 < 2 ^ n1 <= 9007199254740992).
  { split; [apply Z.pow_pos_nonneg; lia | ].
    change 9007199254740992 with (2 ^ 53). apply Z.pow_le_mono_r; lia. }
  (* the scale 2^k with k = -E *)
  set (k := - E).
  assert (Hk : 102 <= k <= 1123) by (unfold k, E; lia).
  assert (HP : 9007199254740992 <= 2 ^ (- e)).
  { change 9007199254740992 with (2 ^ 53). apply Z.pow_le_mono_r; lia. }
  assert (Hk2 : 2 ^ k = 562949953421312 * 2 ^ (- e)).
  { unfold k, E. replace (- (e + -49)) with (49 + - e) by lia.
    rewrite Z.pow_add_r by lia. reflexivity. }
  assert (HA : m2 * 2 ^ n1 < 10 * 2 ^ k) by lia.
  (* the second shift only truncates *)
  assert (Hn2 : 0 <= n2) by (unfold n2; lia).
  assert (Hp2 : 0 < 2 ^ n2) by (apply Z.pow_pos_nonneg; lia).
  set (m3 := shr_m mrs2) in *.
  assert (Hm3 : 0 <= m3) by (rewrite Hq2; apply Z.div_pos; lia).
  assert (Hm3' : m3 * 2 ^ n2 <= m2).
  { rewrite Hq2. pose proof (Z.mul_div_le m2 (2 ^ n2) Hp2). lia. }
  assert (HB : m3 * 2 ^ (e2 + k) < 10 * 2 ^ k).
  { replace (e2 + k) with (n2 + n1) by (unfold k; lia).
    rewrite Z.pow_add_r by lia. nia. }
  (* the exponent stays negative *)
  assert (He2' : e2 < 0).
  { assert (Hx : Zdigits2 m2 + e1 < 5).
    { destruct (Z.eq_dec m2 0) as [-> | Hnz]; [simpl; lia | ].
      pose proof (Zdigits2_bounds m2 ltac:(lia)) as [Hl _].
      assert (Hd2' : 0 < Zdigits2 m2).
      { destruct m2; simpl; lia. }
      assert (Hlt : 2 ^ (Zdigits2 m2 - 1 + n1) < 2 ^ (k + 4)).
      { rewrite !Z.pow_add_r by lia. change (2 ^ 4) with 16. nia. }
      apply pow2_lt_inv in Hlt; [ | lia]. unfold k in Hlt. lia. }
    unfold n2, fexp, emin, Number.prec, Number.emax in He2. lia. }
  destruct m3 as [ | p | p ] eqn:Hm3e; [ | | lia].
  - simpl. lia.
  - replace (e2 <=? Number.emax - Number.prec) with true
      by (symmetry; apply Z.leb_le; unfold Number.emax, Number.prec; lia).
    split; [reflexivity | ].
    cbn [Number.floor cond_Zopp].
    split; [apply Z.shiftl_nonneg; lia | ].
    assert (Z.shiftl (Zpos p) e2 < 10); [ | lia].
    apply shiftl_lt with (K := k); lia.
Qed.

End Rounding.

(** ** The drawn amount *)

Section Draw.

(** The numbers [Math.random()] can return are [+0] and the canonical
    binary64 values [m * 2^e] with [e <= -53]. *)
Lemma random_range_cases (u : spec_float) :
  Number.random_range u = true ->
  (exists s, u = S754_zero s) \/
  (exists m e, u = S754_finite false m e /\ -1074 <= e <= -53 /\ Zpos m < 2 ^ 53).
Proof.
  unfold Number.random_range. intros H.
  apply andb_true_iff in H as [H Hlt]. apply andb_true_iff in H as [Hv Hle].
  destruct u as [s | s | | s m e].
  - left. now exists s.
  - destruct s; discriminate.
  - discriminate.
  - right. exists m, e.
    destruct s; [discriminate | ].
    split; [reflexivity | ].
    cbn [valid_binary] in Hv. unfold bounded, canonical_mantissa in Hv.
    apply andb_true_iff in Hv as [Hc _]. apply Z.eqb_eq in Hc.
    unfold fexp, emin, Number.prec, Number.emax in Hc.
    pose proof (digits2_pos_bounds m) as [Hd1 Hd2].
    assert (Hd : Zpos (digits2_pos m) <= 53) by lia.
    assert (Hm : Zpos m < 9007199254740992).
    { change 9007199254740992 with (2 ^ 53).
      eapply Z.lt_le_trans; [exact Hd2 | apply Z.pow_le_mono_r; lia]. }
    split; [ | exact Hm].
    unfold SFltb, SFcompare, Number.one in Hlt.
    destruct (Z.compare_spec e (-52)) as [Heq | Hl | Hg]; try discriminate.
    + exfalso. subst e.
      assert (Hd53 : Zpos (digits2_pos m) = 53) by lia.
      rewrite Hd53 in Hd1. change (2 ^ (53 - 1)) with 4503599627370496 in Hd1.
      destruct (Pos.compare_cont Eq m 4503599627370496) eqn:Hcmp;
        try discriminate.
      pose proof (proj1 (Pos.compare_lt_iff m 4503599627370496) Hcmp) as Hx.
      apply Pos2Z.pos_lt_pos in Hx. lia.
    + lia.
Qed.

Lemma random_mul_ten_finite (u : spec_float) :
  Number.random_range u = true ->
  Number.is_finite (Number.mul u Number.ten) = true.
Proof.
  intros H. destruct (random_range_cases u H) as [[s ->] | (m & e & -> & He & Hm)].
  - reflexivity.
  - apply (mul_ten_below m e He Hm).
Qed.

Lemma draw_range (u : spec_float) :
  Number.random_range u = true -> 1 <= draw u <= 10.
Proof.
  intros H. unfold draw.
  destruct (random_range_cases u H) as [[s ->] | (m & e & -> & He & Hm)].
  - simpl. lia.
  - pose proof (mul_ten_below m e He Hm) as [_ Hf]. cbn zeta in Hf.
    change (Number.mul (S754_finite false m e) Number.ten)
      with (binary_round_aux Number.prec Number.emax false
              (Zpos (m * 5629499534213120)) (e + -49) loc_Exact).
    lia.
Qed.

(** Both ends of the range are drawn: at [+0], and at the largest number
    below one, [1 - 2^-53]. *)
Example draw_least : draw Number.zero = 1.
Proof. reflexivity. Qed.

Example draw_greatest : draw (S754_finite false 9007199254740991 (-53)) = 10.
Proof. vm_compute. reflexivity. Qed.

(** The product is rounded.  For [k * 2^-53] with [10 * k = 9 * 2^53 - 8]
    the exact product, [9 - 2^-50], is the tie between [9 - 2^-49] and [9]
    and goes to the even mantissa, [9]: the draw is 10, where the exact
    product would give 9. *)
Example draw_rounded_tie :
  Number.random_range (S754_finite false 8106479329266892 (-53)) = true /\
  draw (S754_finite false 8106479329266892 (-53)) = 10.
Proof. split; vm_compute; reflexivity. Qed.

End Draw.

(** ** The descending sort *)

Section SortDesc.

Context {A : Type} (key : A -> Z).

Lemma insert_desc_perm (x : A) (l : list A) :
  Permutation (insert_desc key x l) (x :: l).
Proof.
  induction l as [ | y l IH ]; cbn [insert_desc].
  - apply Permutation_refl.
  - destruct (key x <? key y).
    + eapply perm_trans; [apply perm_skip, IH | apply perm_swap].
    + apply Permutation_refl.
Qed.

Lemma sort_desc_perm (l : list A) : Permutation (sort_desc key l) l.
Proof.
  induction l as [ | x l IH ]; cbn [sort_desc fold_right].
  - constructor.
  - eapply perm_trans; [apply insert_desc_perm | now apply perm_skip].
Qed.

Lemma insert_desc_sorted (x : A) (l : list A) :
  StronglySorted (desc key) l -> StronglySorted (desc key) (insert_desc key x l).
Proof.
  induction 1 as [ | y l Hl IH Hy ]; cbn [insert_desc].
  - repeat constructor.
  - destruct (Z.ltb_spec (key x) (key y)) as [Hlt | Hge].
    + constructor; [exact IH | ].
      apply Forall_forall. intros z Hz.
      apply (Permutation_in _ (insert_desc_perm x l)) in Hz.
      destruct Hz as [<- | Hz]; [unfold desc; lia | ].
      now apply (proj1 (Forall_forall _ _) Hy).
    + constructor; [now constructor | ].
      constructor; [exact Hge | ].
      apply Forall_forall. intros z Hz.
      pose proof (proj1 (Forall_forall _ _) Hy z Hz) as Hzy.
      unfold desc in *. lia.
Qed.

Lemma sort_desc_sorted (l : list A) : StronglySorted (desc key) (sort_desc key l).
Proof.
  induction l as [ | x l IH ]; cbn [sort_desc fold_right].
  - constructor.
  - now apply insert_desc_sorted.
Qed.

(** A list whose keys are all equal is left in place. *)
Lemma sort_desc_constant (c : Z) (l : list A) :
  Forall (fun a => key a = c) l -> sort_desc key l = l.
Proof.
  induction 1 as [ | x l Hx Hl IH ]; cbn [sort_desc fold_right].
  - reflexivity.
  - fold (sort_desc key l). rewrite IH.
    destruct Hl as [ | y l Hy Hl ]; cbn [insert_desc]; [reflexivity | ].
    replace (key x <? key y) with false; [reflexivity | ].
    symmetry. apply Z.ltb_ge. lia.
Qed.

End SortDesc.

(** ** Reads: [GET /users] and [GET /point-history] *)

Section Reads.

Lemma lookup_some (oid : ObjectId) (us : list User.t) (u : User.t) :
  UserModel.lookup oid us = Some u -> In u us /\ User._id u = oid.
Proof.
  unfold UserModel.lookup. intros H. apply find_some in H as [Hin Heq].
  split; [exact Hin | now apply N.eqb_eq].
Qed.

Lemma lookup_present (oid : ObjectId) (us : list User.t) :
  (exists u, In u us /\ User._id u = oid) ->
  exists u, UserModel.lookup oid us = Some u.
Proof.
  intros (u & Hin & Hid). unfold UserModel.lookup.
  destruct (find (fun v => N.eqb (User._id v) oid) us) as [v | ] eqn:Hf.
  - now exists v.
  - exfalso. pose proof (find_none _ _ Hf u Hin) as Hn. cbn beta in Hn.
    apply N.eqb_neq in Hn. contradiction.
Qed.

Lemma get_users_run (env : Env) (w : World) :
  get_users env w
  = (match query_fault env with
     | Some message => {| status := 500; json_body := Error message |}
     | None =>
         {| status := 200;
            json_body := Users (sort_desc User.points (users (db w))) |}
     end, w).
Proof.
  unfold get_users, try_catch, bind, UserModel.find_sorted, store_call, ret.
  now destruct (query_fault env).
Qed.

Lemma get_point_history_run (env : Env) (w : World) :
  get_point_history env w
  = (match query_fault env with
     | Some message => {| status := 500; json_body := Error message |}
     | None =>
         {| status := 200;
            json_body :=
              History
                (map (PointHistoryModel.populate (users (db w)))
                   (sort_desc PointHistory.timestamp (pointhistories (db w)))) |}
     end, w).
Proof.
  unfold get_point_history, try_catch, bind,
    PointHistoryModel.find_populated_sorted, store_call, ret.
  now destruct (query_fault env).
Qed.

(** C4. For every store state, [GET /users] writes nothing; unless the
    query is rejected (then the answer is 500 with the message), it answers
    200 with a list that holds exactly the stored players (a permutation of
    the collection) in descending order of points. *)
Theorem get_users_sorted (env : Env) (w : World) :
  snd (get_users env w) = w /\
  match query_fault env with
  | Some message =>
      fst (get_users env w) = {| status := 500; json_body := Error message |}
  | None =>
      exists us,
        fst (get_users env w) = {| status := 200; json_body := Users us |} /\
        Permutation us (users (db w)) /\
        StronglySorted (fun a b => User.points b <= User.points a) us
  end.
Proof.
  unfold get_users, try_catch, bind, UserModel.find_sorted, store_call, ret.
  destruct (query_fault env) as [message | ]; cbn [fst snd].
  - split; reflexivity.
  - split; [reflexivity | ].
    exists (sort_desc User.points (users (db w))).
    split; [reflexivity | ]. split.
    + apply sort_desc_perm.
    + apply (sort_desc_sorted User.points).
Qed.

(** C5. For every store state, [GET /point-history] writes nothing;
    unless the query is rejected, it answers 200 with all award records (a
    permutation [hs] of the collection), ordered by timestamp descending
    and populated: a record whose [userId] is the identifier of a stored
    player carries that identifier and the player's username. *)
Theorem get_point_history_sorted (env : Env) (w : World) :
  snd (get_point_history env w) = w /\
  match query_fault env with
  | Some message =>
      fst (get_point_history env w)
      = {| status := 500; json_body := Error message |}
  | None =>
      exists hs,
        fst (get_point_history env w)
        = {| status := 200;
             json_body :=
               History (map (PointHistoryModel.populate (users (db w))) hs) |} /\
        Permutation hs (pointhistories (db w)) /\
        StronglySorted
          (fun a b => PointHistory.timestamp b <= PointHistory.timestamp a) hs /\
        forall h, In h hs ->
          let p := PointHistoryModel.populate (users (db w)) h in
          PointHistory.p_id p = PointHistory._id h /\
          PointHistory.p_pointsAwarded p = PointHistory.pointsAwarded h /\
          PointHistory.p_timestamp p = PointHistory.timestamp h /\
          ((exists u, In u (users (db w)) /\ User._id u = PointHistory.userId h) ->
           exists u, In u (users (db w)) /\ User._id u = PointHistory.userId h /\
                     PointHistory.p_userId p
                     = Some (PointHistory.userId h, User.username u))
  end.
Proof.
  unfold get_point_history, try_catch, bind,
    PointHistoryModel.find_populated_sorted, store_call, ret.
  destruct (query_fault env) as [message | ]; cbn [fst snd].
  - split; reflexivity.
  - split; [reflexivity | ].
    exists (sort_desc PointHistory.timestamp (pointhistories (db w))).
    split; [reflexivity | ]. split; [apply sort_desc_perm | ].
    split; [apply (sort_desc_sorted PointHistory.timestamp) | ].
    intros h _. cbn zeta.
    unfold PointHistoryModel.populate; cbn.
    repeat (split; [reflexivity | ]).
    intros Hex. destruct (lookup_present _ _ Hex) as [u Hu].
    rewrite Hu. destruct (lookup_some _ _ _ Hu) as [Hin Hid].
    exists u. rewrite Hid. auto.
Qed.

End Reads.

(** ** [POST /claim-points] *)

Section Claim.

Variable schema : Schema.

Lemma findById_world (fault : option string) (v : option json) (w : World) :
  snd (UserModel.findById schema fault v w) = w.
Proof.
  unfold UserModel.findById, store_call, throw.
  destruct v as [[ | b | x | s | l | l ] | ];
    try destruct (castObjectId schema _);
    destruct fault; reflexivity.
Qed.

Lemma findById_found (fault : option string) (v : option json) (w : World)
      (u : User.t) :
  fst (UserModel.findById schema fault v w) = Ok (Some u) ->
  fault = None /\ In u (users (db w)) /\
  UserModel.lookup (User._id u) (users (db w)) = Some u.
Proof.
  unfold UserModel.findById, store_call, throw.
  destruct v as [[ | b | x | s | l | l ] | ];
    try destruct (castObjectId schema _) as [oid | message];
    destruct fault; cbn [fst]; try discriminate;
    intros [= H]; destruct (lookup_some _ _ _ H) as [Hin Hid];
    subst oid; auto.
Qed.

(** A well-formed identifier that no stored player has: the lookup
    completes with [null]. *)
Lemma findById_unknown (j : json) (oid : ObjectId) (w : World) :
  j <> JNull ->
  castObjectId schema j = inl oid ->
  (forall u, In u (users (db w)) -> User._id u <> oid) ->
  fst (UserModel.findById schema None (Some j) w) = Ok None.
Proof.
  intros Hj Hcast Hnone. unfold UserModel.findById, store_call.
  destruct j; try contradiction; rewrite Hcast; cbn [fst]; f_equal;
    unfold UserModel.lookup;
    (destruct (find _ (users (db w))) as [u | ] eqn:Hf; [ | reflexivity]);
    apply find_some in Hf as [Hin Heq]; apply N.eqb_eq in Heq;
    now apply Hnone in Hin.
Qed.

Lemma write_points_lookup (u : User.t) (p : Z) (us : list User.t) :
  UserModel.lookup (User._id u) us = Some u ->
  UserModel.lookup (User._id u)
    (UserModel.write_points (User.set_points u p) us)
  = Some (User.set_points u p).
Proof.
  unfold UserModel.lookup, UserModel.write_points. cbn [User._id User.set_points].
  induction us as [ | v us IH ]; cbn [find map]; [discriminate | ].
  destruct (N.eqb (User._id v) (User._id u)) eqn:Hv.
  - intros [= ->]. cbn [User._id User.set_points User.points]. now rewrite Hv.
  - rewrite Hv. exact IH.
Qed.

(** The three awaited calls of the handler, case by case. *)
Lemma post_claim_points_cases (env : Env) (body : json) (w : World) :
  let res := post_claim_points schema env body w in
  let amount := draw (random env) in
  match fst (UserModel.findById schema (query_fault env)
               (get_field "userId" body) w) with
  | Err message => res = ({| status := 500; json_body := Error message |}, w)
  | Ok None =>
      res = ({| status := 404; json_body := Error "User not found" |}, w)
  | Ok (Some u) =>
      let u' := User.set_points u (User.points u + amount) in
      let saved := with_users w (UserModel.write_points u' (users (db w))) in
      let h := {| PointHistory._id := next_id w;
                  PointHistory.userId := User._id u;
                  PointHistory.pointsAwarded := amount;
                  PointHistory.timestamp := now env |} in
      match save_fault env, create_fault env with
      | Some message, _ =>
          res = ({| status := 500; json_body := Error message |}, w)
      | None, Some message =>
          res = ({| status := 500; json_body := Error message |},
                 {| db := db saved; next_id := N.succ (next_id w) |})
      | None, None =>
          res = ({| status := 200;
                    json_body := Claimed amount (User.points u + amount) |},
                 {| db := {| users := users (db saved);
                             pointhistories := pointhistories (db w) ++ [h] |};
                    next_id := N.succ (next_id w) |})
      end
  end.
Proof.
  cbn zeta. unfold post_claim_points, try_catch, bind.
  pose proof (findById_world (query_fault env) (get_field "userId" body) w) as Hw.
  destruct (UserModel.findById schema (query_fault env)
              (get_field "userId" body) w) as [[[u | ] | message] w0].
  all: cbn [fst snd] in *; subst w0; try reflexivity.
  unfold UserModel.save_points, PointHistoryModel.create, store_call, bind,
    fresh_id, ret.
  destruct (save_fault env), (create_fault env); reflexivity.
Qed.

(** C1. When the looked-up player exists and both writes succeed, the
    drawn amount [a] is an integer of the range 1..10; the answer is 200
    with [a] and the total [points + a]; the stored player now has that
    total; and one award record with the player's identifier, [a] and the
    current time is appended to the history. *)
Theorem claim_points_success (env : Env) (body : json) (w : World) (u : User.t) :
  Number.random_range (random env) = true ->
  fst (UserModel.findById schema (query_fault env) (get_field "userId" body) w)
  = Ok (Some u) ->
  save_fault env = None ->
  create_fault env = None ->
  let a := draw (random env) in
  let w' := snd (post_claim_points schema env body w) in
  1 <= a <= 10 /\
  fst (post_claim_points schema env body w)
  = {| status := 200; json_body := Claimed a (User.points u + a) |} /\
  UserModel.lookup (User._id u) (users (db w'))
  = Some (User.set_points u (User.points u + a)) /\
  pointhistories (db w')
  = pointhistories (db w)
    ++ [ {| PointHistory._id := next_id w;
            PointHistory.userId := User._id u;
            PointHistory.pointsAwarded := a;
            PointHistory.timestamp := now env |} ].
Proof.
  intros Hr Hu Hs Hc. cbn zeta.
  pose proof (post_claim_points_cases env body w) as H. cbn zeta in H.
  rewrite Hu, Hs, Hc in H. rewrite H. cbn [fst snd db users pointhistories].
  split; [now apply draw_range | ].
  split; [reflexivity | ].
  split; [ | reflexivity].
  apply write_points_lookup. now apply findById_found in Hu.
Qed.

(** C3, amended. A claim whose [userId] stands for no stored player
    (absent, null, not an identifier, or the identifier of no player)
    changes nothing: no record is created and no player is written.  It is
    answered 404 with the error "User not found" when the lookup completes,
    that is when the value can be cast (or is absent or null) and the store
    answers the query; a value that cannot be cast, or a query that the
    store rejects, is answered 500 with the message of that error. *)
Theorem claim_points_not_found (env : Env) (body : json) (w : World) :
  named_player schema body w = None ->
  snd (post_claim_points schema env body w) = w /\
  fst (post_claim_points schema env body w)
  = match cast_error schema body, query_fault env with
    | None, None => {| status := 404; json_body := Error "User not found" |}
    | Some message, _ | None, Some message =>
        {| status := 500; json_body := Error message |}
    end.
Proof.
  unfold named_player, cast_error. intros Hn.
  pose proof (post_claim_points_cases env body w) as H. cbn zeta in H.
  unfold UserModel.findById, store_call, throw in H.
  destruct (get_field "userId" body) as [[ | b | x | s | l | l ] | ];
    try destruct (castObjectId schema _) as [oid | message];
    destruct (query_fault env); cbn [fst] in H; try rewrite Hn in H;
    rewrite H; split; reflexivity.
Qed.

(** A lookup that is rejected (the store fails, or the identifier cannot
    be cast) answers 500 and changes nothing either. *)
Lemma claim_points_lookup_rejected (env : Env) (body : json) (w : World)
      (message : string) :
  fst (UserModel.findById schema (query_fault env) (get_field "userId" body) w)
  = Err message ->
  post_claim_points schema env body w
  = ({| status := 500; json_body := Error message |}, w).
Proof.
  intros Hn.
  pose proof (post_claim_points_cases env body w) as H. cbn zeta in H.
  now rewrite Hn in H.
Qed.

Lemma write_points_frame (u : User.t) (us : list User.t) :
  Forall2
    (fun v v' =>
       User._id v' = User._id v /\ User.username v' = User.username v /\
       (User._id v <> User._id u -> v' = v))
    us (UserModel.write_points u us).
Proof.
  induction us as [ | v us IH ]; cbn [UserModel.write_points map];
    constructor; [ | exact IH].
  destruct (N.eqb (User._id v) (User._id u)) eqn:Hv.
  - apply N.eqb_eq in Hv. cbn. repeat split. congruence.
  - auto.
Qed.

(** C6. A claim answered with 200 leaves every stored player in place
    with its identifier and username, changes no player other than the
    claimed one, and leaves the history as it was but for one record
    appended at its end. *)
Theorem claim_points_frame (env : Env) (body : json) (w w' : World) (r : Response) :
  post_claim_points schema env body w = (r, w') ->
  status r = 200 ->
  exists u h,
    In u (users (db w)) /\
    Forall2
      (fun v v' =>
         User._id v' = User._id v /\ User.username v' = User.username v /\
         (User._id v <> User._id u -> v' = v))
      (users (db w)) (users (db w')) /\
    PointHistory.userId h = User._id u /\
    pointhistories (db w') = pointhistories (db w) ++ [h].
Proof.
  intros Hres Hst.
  pose proof (post_claim_points_cases env body w) as H. cbn zeta in H.
  rewrite Hres in H.
  destruct (fst (UserModel.findById schema (query_fault env)
                   (get_field "userId" body) w))
    as [[u | ] | message] eqn:Hu.
  - destruct (save_fault env), (create_fault env);
      injection H as -> ->; cbn [status] in Hst; try discriminate.
    apply findById_found in Hu as (_ & Hin & _).
    eexists u, _. cbn [db users pointhistories with_users].
    split; [exact Hin | ].
    split; [ | split; [ | reflexivity]; reflexivity].
    apply (write_points_frame (User.set_points u _)).
  - injection H as -> ->. discriminate.
  - injection H as -> ->. discriminate.
Qed.

Lemma claimed_amount (env : Env) (body : json) (w : World) (a t : Z) :
  json_body (fst (post_claim_points schema env body w)) = Claimed a t ->
  a = draw (random env).
Proof.
  pose proof (post_claim_points_cases env body w) as H. cbn zeta in H.
  destruct (fst (UserModel.findById schema (query_fault env)
                   (get_field "userId" body) w)) as [[u | ] | message].
  - destruct (save_fault env), (create_fault env); rewrite H; cbn;
      congruence.
  - rewrite H. discriminate.
  - rewrite H. discriminate.
Qed.

End Claim.

(** C9. The amount a claim awards is the draw computed from
    [Math.random()] alone: two claims answered with an award, on any stores,
    with any bodies and schemas, award the same amount when their random
    numbers are the same. *)
Theorem claim_points_amount_independent
    (schema1 schema2 : Schema) (env1 env2 : Env) (body1 body2 : json)
    (w1 w2 : World) (a1 t1 a2 t2 : Z) :
  json_body (fst (post_claim_points schema1 env1 body1 w1)) = Claimed a1 t1 ->
  json_body (fst (post_claim_points schema2 env2 body2 w2)) = Claimed a2 t2 ->
  random env1 = random env2 ->
  a1 = draw (random env1) /\ a2 = draw (random env2) /\ a1 = a2.
Proof.
  intros H1 H2 Hr.
  apply claimed_amount in H1. apply claimed_amount in H2.
  repeat split; congruence.
Qed.

(** ** [POST /users] *)

Section Register.

Variable schema : Schema.

Lemma post_users_cases (env : Env) (body : json) (w : World) :
  let res := post_users schema env body w in
  let bumped := {| db := db w; next_id := N.succ (next_id w) |} in
  match castUsername schema (get_field "username" body), save_fault env with
  | inr message, _ | inl _, Some message =>
      res = ({| status := 400; json_body := Error message |}, bumped)
  | inl name, None =>
      let u := {| User._id := next_id w; User.username := name;
                  User.points := User.default_points |} in
      res = ({| status := 201; json_body := Created u |},
             with_users bumped (users (db w) ++ [u]))
  end.
Proof.
  cbn zeta.
  unfold post_users, try_catch, bind, UserModel.create, UserModel.save_new,
    fresh_id, store_call, throw, ret.
  cbn [fst snd].
  destruct (castUsername schema (get_field "username" body)) as [name | message];
    [destruct (save_fault env) | ]; reflexivity.
Qed.

(** C8. A registration answered with 201 returns the created player: it
    has 0 points, the identifier the generator issued (which no stored
    player has, identifiers in the store being older than the generator's
    counter), and the username the schema made of the request's; the
    player is appended to the collection, whose earlier players and the
    history are unchanged; and a following [GET /users] lists it. *)
Theorem register_creates_player (env : Env) (body : json) (w w' : World)
        (r : Response) :
  post_users schema env body w = (r, w') ->
  status r = 201 ->
  exists u,
    json_body r = Created u /\
    User.points u = 0 /\
    User._id u = next_id w /\
    castUsername schema (get_field "username" body) = inl (User.username u) /\
    users (db w') = users (db w) ++ [u] /\
    pointhistories (db w') = pointhistories (db w) /\
    ((forall v, In v (users (db w)) -> (User._id v < next_id w)%N) ->
     forall v, In v (users (db w)) -> User._id v <> User._id u) /\
    (forall env', query_fault env' = None ->
       exists us, fst (get_users env' w') = {| status := 200; json_body := Users us |}
                  /\ In u us).
Proof.
  intros Hres Hst.
  pose proof (post_users_cases env body w) as H. cbn zeta in H.
  rewrite Hres in H.
  destruct (castUsername schema (get_field "username" body)) as [name | message];
    [destruct (save_fault env) | ];
    injection H as -> ->; cbn [status] in Hst; try discriminate.
  eexists. split; [reflexivity | ].
  cbn [User.points User._id User.username with_users db users pointhistories].
  repeat (split; [reflexivity | ]).
  split.
  - intros Hold v Hv Heq. apply Hold in Hv. rewrite Heq in Hv.
    now apply N.lt_irrefl in Hv.
  - intros env' Hq. rewrite get_users_run, Hq. cbn [fst].
    eexists. split; [reflexivity | ].
    apply (Permutation_in _ (Permutation_sym (sort_desc_perm _ _))).
    cbn [with_users db users]. apply in_or_app. right. now left.
Qed.

(** C10. [POST /users] reads the request body through its [username]
    field only: two bodies with the same [username] give the same answer
    and the same store, whatever else they hold; and a created player has
    0 points, whatever [points] the body supplies. *)
Theorem register_reads_username_only (env : Env) (body1 body2 : json) (w : World) :
  get_field "username" body1 = get_field "username" body2 ->
  post_users schema env body1 w = post_users schema env body2 w /\
  forall u, json_body (fst (post_users schema env body1 w)) = Created u ->
            User.points u = 0.
Proof.
  intros Heq. split.
  - unfold post_users. now rewrite Heq.
  - intros u.
    pose proof (post_users_cases env body1 w) as H. cbn zeta in H.
    destruct (castUsername schema (get_field "username" body1)) as [name | message];
      [destruct (save_fault env) | ]; rewrite H; cbn [fst json_body];
      try discriminate.
    now intros [= <-].
Qed.

End Register.

(** ** Startup *)

Section Seed.

Variable schema : Schema.

Lemma create_all_run (names : list string) (w : World) :
  UserModel.create_all schema names w
  = (Ok (drafts_from schema (next_id w) names),
     {| db := db w; next_id := next_id w + N.of_nat (List.length names) |}).
Proof.
  revert w. induction names as [ | name names IH ]; intros w.
  - cbn. unfold ret. do 2 f_equal. destruct w; cbn. f_equal. lia.
  - cbn [UserModel.create_all drafts_from List.length].
    unfold bind at 1. unfold UserModel.create at 1.
    unfold bind at 1. unfold fresh_id at 1. unfold ret at 1.
    unfold bind at 1. rewrite IH. cbn [db next_id]. unfold ret.
    do 2 f_equal. lia.
Qed.

Lemma validate_all_accepted (n : N) (names : list string) :
  (forall name, In name names ->
     castUsername schema (Some (JString name)) = inl name) ->
  UserModel.validate_all (drafts_from schema n names) = inr (new_users n names).
Proof.
  revert n. induction names as [ | name names IH ]; intros n Hok.
  - reflexivity.
  - cbn [drafts_from UserModel.validate_all new_users].
    rewrite (Hok name (or_introl eq_refl)).
    rewrite IH; [reflexivity | ]. intros x Hx. apply Hok. now right.
Qed.

Lemma validate_all_range (n : N) (names : list string) (us : list User.t) :
  UserModel.validate_all (drafts_from schema n names) = inr us ->
  Forall (fun u => User.points u = 0 /\
                   (n <= User._id u < n + N.of_nat (List.length names))%N) us.
Proof.
  revert n us. induction names as [ | name names IH ]; intros n us.
  - cbn. intros [= <-]. constructor.
  - cbn [drafts_from UserModel.validate_all List.length].
    destruct (castUsername schema (Some (JString name))); [ | discriminate].
    destruct (UserModel.validate_all (drafts_from schema (N.succ n) names))
      as [message | us'] eqn:Hv; [discriminate | ].
    intros [= <-]. constructor.
    + cbn. split; [reflexivity | lia].
    + specialize (IH _ _ Hv). eapply Forall_impl; [ | exact IH].
      cbn beta. intros u [Hp Hr]. split; [exact Hp | lia].
Qed.

Lemma new_users_names (n : N) (names : list string) :
  map User.username (new_users n names) = names.
Proof.
  revert n. induction names as [ | name names IH ]; intros n; cbn;
    [ | rewrite IH]; reflexivity.
Qed.

Lemma new_users_points (n : N) (names : list string) :
  Forall (fun u => User.points u = 0) (new_users n names).
Proof.
  revert n. induction names as [ | name names IH ]; intros n; cbn;
    constructor; [reflexivity | apply IH].
Qed.

Lemma insertMany_accepted (names : list string) (w : World) :
  (forall name, In name names ->
     castUsername schema (Some (JString name)) = inl name) ->
  UserModel.insertMany schema None names w
  = (Ok (new_users (next_id w) names),
     with_users
       {| db := db w; next_id := next_id w + N.of_nat (List.length names) |}
       (users (db w) ++ new_users (next_id w) names)).
Proof.
  intros Hok. unfold UserModel.insertMany, bind.
  rewrite create_all_run, (validate_all_accepted _ _ Hok). reflexivity.
Qed.

(** Whatever the schema and the faults, [insertMany] only adds players
    with zero points and fresh identifiers. *)
Lemma insertMany_extends (fault : option string) (names : list string) (w : World) :
  extends w (snd (UserModel.insertMany schema fault names w)).
Proof.
  unfold UserModel.insertMany, bind. rewrite create_all_run.
  destruct (UserModel.validate_all (drafts_from schema (next_id w) names))
    as [message | us] eqn:Hv.
  - unfold throw, extends. cbn [snd db next_id users pointhistories].
    split; [reflexivity | ]. split; [lia | ].
    exists []. rewrite app_nil_r. split; [reflexivity | constructor].
  - unfold store_call, extends.
    destruct fault as [message | ];
      cbn [snd db next_id users pointhistories with_users].
    + split; [reflexivity | ]. split; [lia | ].
      exists []. rewrite app_nil_r. split; [reflexivity | constructor].
    + split; [reflexivity | ]. split; [lia | ].
      exists us. split; [reflexivity | ].
      now apply validate_all_range.
Qed.

Lemma extends_refl (w : World) : extends w w.
Proof.
  split; [reflexivity | ]. split; [lia | ].
  exists []. rewrite app_nil_r. split; [reflexivity | constructor].
Qed.

Lemma seed_extends (env : Env) (w : World) :
  extends w (snd (seed schema env w)).
Proof.
  unfold seed, bind, UserModel.countDocuments, store_call.
  destruct (query_fault env); cbn [fst snd]; [apply extends_refl | ].
  destruct (Nat.eqb (List.length (users (db w))) 0); [ | apply extends_refl].
  pose proof (insertMany_extends (save_fault env) initialUsers w) as H.
  destruct (UserModel.insertMany schema (save_fault env) initialUsers w)
    as [[us | message] w1]; exact H.
Qed.

(** C7. With a schema that accepts the ten default names as they are:
    startup on an empty player collection, when its two store calls
    succeed, inserts exactly the ten default players in the order of the
    list, each with 0 points, and a following [GET /users] returns exactly
    these ten; startup on a collection that is not empty leaves the whole
    state as it was. *)
Theorem seed_inserts_defaults (env : Env) (w : World) :
  (forall name, In name initialUsers ->
     castUsername schema (Some (JString name)) = inl name) ->
  (users (db w) = [] -> query_fault env = None -> save_fault env = None ->
   let w' := snd (seed schema env w) in
   fst (seed schema env w) = Ok tt /\
   map User.username (users (db w')) = initialUsers /\
   List.length (users (db w')) = 10%nat /\
   Forall (fun u => User.points u = 0) (users (db w')) /\
   pointhistories (db w') = pointhistories (db w) /\
   (forall env', query_fault env' = None ->
      fst (get_users env' w')
      = {| status := 200; json_body := Users (users (db w')) |}) /\
   (forall env', snd (seed schema env' w') = w')) /\
  (users (db w) <> [] -> snd (seed schema env w) = w).
Proof.
  intros Hok. split.
  - intros Hempty Hq Hs. cbn zeta.
    unfold seed, bind, UserModel.countDocuments, store_call.
    rewrite Hq, Hs, Hempty. cbn [List.length Nat.eqb].
    rewrite (insertMany_accepted initialUsers w Hok). unfold ret.
    cbn [fst snd with_users db users pointhistories]. rewrite Hempty.
    cbn [app].
    split; [reflexivity | ].
    split; [apply new_users_names | ].
    split; [rewrite <- (length_map User.username), new_users_names; reflexivity | ].
    split; [apply new_users_points | ].
    split; [reflexivity | ].
    split.
    + intros env' Hq'. rewrite get_users_run, Hq'.
      cbn [fst snd with_users db users pointhistories app].
      now rewrite (sort_desc_constant User.points 0 _ (new_users_points _ _)).
    + intros env'. unfold seed, bind, UserModel.countDocuments, store_call.
      destruct (query_fault env'); reflexivity.
  - intros Hne. unfold seed, bind, UserModel.countDocuments, store_call.
    destruct (query_fault env); [reflexivity | ].
    destruct (users (db w)) as [ | u us ]; [contradiction | reflexivity].
Qed.

End Seed.

(** ** The award invariant along executions *)

Section Invariant.

Variable schema : Schema.

Lemma award_sum_app (uid : ObjectId) (hs hs' : list PointHistory.t) :
  award_sum uid (hs ++ hs') = award_sum uid hs + award_sum uid hs'.
Proof.
  induction hs as [ | h hs IH ]; cbn [app award_sum fold_right].
  - reflexivity.
  - fold (award_sum uid (hs ++ hs')). fold (award_sum uid hs). rewrite IH.
    destruct (N.eqb (PointHistory.userId h) uid); lia.
Qed.

Lemma award_sum_absent (uid : ObjectId) (hs : list PointHistory.t) :
  (forall h, In h hs -> PointHistory.userId h <> uid) -> award_sum uid hs = 0.
Proof.
  induction hs as [ | h hs IH ]; intros Hne; cbn [award_sum fold_right].
  - reflexivity.
  - fold (award_sum uid hs). rewrite IH by (intros x Hx; apply Hne; now right).
    destruct (N.eqb_spec (PointHistory.userId h) uid) as [Heq | _];
      [ | reflexivity].
    exfalso. apply (Hne h); [now left | exact Heq].
Qed.

Lemma consistent_spec (d : Db) :
  consistent d = true <->
  forall u, In u (users d) ->
            User.points u = award_sum (User._id u) (pointhistories d).
Proof.
  unfold consistent. rewrite forallb_forall.
  split; intros H u Hu; specialize (H u Hu); now apply Z.eqb_eq.
Qed.

Lemma extends_preserves (w w' : World) :
  extends w w' -> ids_below w -> consistent (db w) = true ->
  ids_below w' /\ consistent (db w') = true.
Proof.
  intros (Hh & Hn & extra & Hu & Hextra) [Hus Hhs] Hc.
  rewrite Forall_forall in Hextra. rewrite consistent_spec in Hc.
  split.
  - split.
    + intros u Hin. rewrite Hu in Hin. apply in_app_or in Hin as [Hin | Hin].
      * specialize (Hus u Hin). lia.
      * specialize (Hextra u Hin). lia.
    + intros h Hin. rewrite Hh in Hin. specialize (Hhs h Hin). lia.
  - apply consistent_spec. intros u Hin. rewrite Hh.
    rewrite Hu in Hin. apply in_app_or in Hin as [Hin | Hin].
    + now apply Hc.
    + destruct (Hextra u Hin) as [Hp Hr]. rewrite Hp. symmetry.
      apply award_sum_absent. intros h Hh' Heq.
      specialize (Hhs h Hh'). lia.
Qed.

Lemma post_users_extends (env : Env) (body : json) (w : World) :
  extends w (snd (post_users schema env body w)).
Proof.
  pose proof (post_users_cases schema env body w) as H. cbn zeta in H.
  unfold extends.
  destruct (castUsername schema (get_field "username" body)) as [name | message];
    [destruct (save_fault env) | ]; rewrite H;
    cbn [snd db next_id users pointhistories with_users];
    (split; [reflexivity | ]); (split; [lia | ]).
  - exists []. rewrite app_nil_r. split; [reflexivity | constructor].
  - eexists. split; [reflexivity | ].
    constructor; [ | constructor]. cbn. split; [reflexivity | lia].
  - exists []. rewrite app_nil_r. split; [reflexivity | constructor].
Qed.

Lemma claim_preserves (env : Env) (body : json) (w : World) :
  torn_claim schema env (PostClaimPoints body) w = false ->
  ids_below w -> consistent (db w) = true ->
  ids_below (snd (post_claim_points schema env body w)) /\
  consistent (db (snd (post_claim_points schema env body w))) = true.
Proof.
  intros Ht Hids Hc.
  pose proof (post_claim_points_cases schema env body w) as H. cbn zeta in H.
  pose proof (findById_found schema (query_fault env)
                (get_field "userId" body) w) as Hfound.
  unfold torn_claim in Ht.
  destruct (UserModel.findById schema (query_fault env)
              (get_field "userId" body) w) as [[[u | ] | message] w0];
    cbn [fst] in H, Hfound; try (rewrite H; now split).
  destruct (save_fault env) as [message | ]; [rewrite H; now split | ].
  destruct (create_fault env) as [message | ]; [discriminate | ].
  rewrite H. cbn [snd db users pointhistories next_id with_users].
  destruct (Hfound u eq_refl) as (_ & Hin & _).
  destruct Hids as [Hus Hhs]. rewrite consistent_spec in Hc.
  set (a := draw (random env)) in *.
  split.
  - split; cbn [db users pointhistories next_id].
    + intros v' Hv'. unfold UserModel.write_points in Hv'.
      apply in_map_iff in Hv' as (v & <- & Hv). specialize (Hus v Hv).
      destruct (N.eqb (User._id v) _); cbn [User._id User.set_points]; lia.
    + intros h Hh. apply in_app_or in Hh as [Hh | [<- | []]].
      * specialize (Hhs h Hh). lia.
      * cbn [PointHistory.userId]. specialize (Hus u Hin). lia.
  - apply consistent_spec. cbn [users pointhistories].
    intros v' Hv'. unfold UserModel.write_points in Hv'.
    apply in_map_iff in Hv' as (v & <- & Hv).
    rewrite award_sum_app. cbn [award_sum fold_right PointHistory.userId
      PointHistory.pointsAwarded User._id User.set_points User.points].
    pose proof (Hc v Hv) as Hpv. pose proof (Hc u Hin) as Hpu.
    destruct (N.eqb_spec (User._id v) (User._id u)) as [Heq | Hne].
    + cbn [User._id User.set_points User.points].
      rewrite Heq, N.eqb_refl. rewrite Heq in Hpv. lia.
    + replace (N.eqb (User._id u) (User._id v)) with false
        by (symmetry; apply N.eqb_neq; congruence).
      lia.
Qed.

Lemma step_preserves (env : Env) (req : Request) (w : World) :
  torn_claim schema env req w = false ->
  ids_below w -> consistent (db w) = true ->
  ids_below (step schema env req w) /\
  consistent (db (step schema env req w)) = true.
Proof.
  intros Ht Hids Hc. destruct req as [ | | body | body | ]; cbn [step].
  - apply (extends_preserves w); [apply seed_extends | | ]; assumption.
  - rewrite get_users_run. now split.
  - apply (extends_preserves w); [apply post_users_extends | | ]; assumption.
  - now apply claim_preserves.
  - rewrite get_point_history_run. now split.
Qed.

Lemma run_preserves (trace : list (Env * Request)) (w : World) :
  untorn schema trace w = true ->
  ids_below w -> consistent (db w) = true ->
  ids_below (run schema trace w) /\ consistent (db (run schema trace w)) = true.
Proof.
  revert w. induction trace as [ | [env req] trace IH ]; intros w Hu Hids Hc.
  - now split.
  - cbn [untorn] in Hu. apply andb_true_iff in Hu as [Ht Hu].
    apply negb_true_iff in Ht.
    destruct (step_preserves env req w Ht Hids Hc) as [Hids' Hc'].
    cbn [run]. now apply IH.
Qed.

(** C2, as it holds. Along a sequential execution from an empty store
    (startup, which seeds it, being one of the requests), every player's
    points equal the sum of the awards recorded for that player, provided
    no claim of the execution has its award record insert rejected after
    its player save succeeded. *)
Theorem award_invariant (trace : list (Env * Request)) (n : N) :
  untorn schema trace (empty_world n) = true ->
  consistent (db (run schema trace (empty_world n))) = true.
Proof.
  intros Hu. apply run_preserves; [exact Hu | | reflexivity].
  split; intros x [].
Qed.

End Invariant.

(** C2, as stated, fails: a claim for a seeded player whose award record
    insert is rejected answers 500 after the player's points were saved, and
    leaves that player with points that no award record accounts for. *)
Lemma torn_claim_breaks_invariant :
  consistent (db seeded) = true /\
  seeded = run string_schema [(calm, Startup)] (empty_world 0) /\
  fst (post_claim_points string_schema record_insert_fails claim_first seeded)
  = {| status := 500; json_body := Error "connection lost" |} /\
  consistent
    (db (run string_schema
           [(calm, Startup); (record_insert_fails, PostClaimPoints claim_first)]
           (empty_world 0)))
  = false.
Proof. repeat split; vm_compute; reflexivity. Qed.

(** C3, as stated, fails: the [userId] "abc" is the identifier of no
    player, seeded or other, since it is not an identifier at all; the
    lookup is rejected with a cast error and the claim is answered 500, not
    404.  The store is unchanged. *)
Lemma malformed_id_answers_500 :
  get_field "userId" claim_malformed = Some (JString "abc") /\
  named_player string_schema claim_malformed seeded = None /\
  post_claim_points string_schema calm claim_malformed seeded
  = ({| status := 500; json_body := Error "Cast to ObjectId failed" |}, seeded) /\
  fst (post_claim_points string_schema calm claim_malformed seeded)
  <> {| status := 404; json_body := Error "User not found" |}.
Proof. repeat split; vm_compute; (reflexivity || discriminate). Qed.

(** ** The theorems at the sample inputs *)

(** Rahul, as seeded. *)
Lemma claim_points_success_witness :
  let rahul := {| User._id := 0%N; User.username := "Rahul"; User.points := 0 |} in
  1 <= draw (random calm) <= 10 /\
  fst (post_claim_points string_schema calm claim_first seeded)
  = {| status := 200;
       json_body := Claimed (draw (random calm)) (0 + draw (random calm)) |} /\
  UserModel.lookup 0%N
    (users (db (snd (post_claim_points string_schema calm claim_first seeded))))
  = Some (User.set_points rahul (0 + draw (random calm))) /\
  pointhistories (db (snd (post_claim_points string_schema calm claim_first seeded)))
  = pointhistories (db seeded)
    ++ [ {| PointHistory._id := next_id seeded;
            PointHistory.userId := 0%N;
            PointHistory.pointsAwarded := draw (random calm);
            PointHistory.timestamp := now calm |} ].
Proof.
  intros rahul.
  apply (claim_points_success string_schema calm claim_first seeded rahul);
    vm_compute; reflexivity.
Defined.

Lemma award_invariant_witness :
  consistent
    (db (run string_schema
           [(calm, Startup); (calm, PostClaimPoints claim_first);
            (calm, PostUsers register_test); (calm, GetUsers);
            (calm, PostClaimPoints claim_first); (calm, GetPointHistory)]
           (empty_world 0)))
  = true.
Proof.
  apply (award_invariant string_schema). vm_compute. reflexivity.
Defined.

(** An identifier that no seeded player has, the store answering. *)
Lemma claim_points_not_found_witness :
  named_player string_schema claim_unknown seeded = None /\
  snd (post_claim_points string_schema calm claim_unknown seeded) = seeded /\
  fst (post_claim_points string_schema calm claim_unknown seeded)
  = {| status := 404; json_body := Error "User not found" |}.
Proof.
  split; [vm_compute; reflexivity | ].
  apply (claim_points_not_found string_schema calm claim_unknown seeded).
  vm_compute. reflexivity.
Defined.

Lemma claim_points_frame_witness :
  exists u h,
    In u (users (db seeded)) /\
    Forall2
      (fun v v' =>
         User._id v' = User._id v /\ User.username v' = User.username v /\
         (User._id v <> User._id u -> v' = v))
      (users (db seeded))
      (users (db (snd (post_claim_points string_schema calm claim_first seeded)))) /\
    PointHistory.userId h = User._id u /\
    pointhistories (db (snd (post_claim_points string_schema calm claim_first seeded)))
    = pointhistories (db seeded) ++ [h].
Proof.
  apply (claim_points_frame string_schema calm claim_first seeded
           (snd (post_claim_points string_schema calm claim_first seeded))
           (fst (post_claim_points string_schema calm claim_first seeded)));
    vm_compute; reflexivity.
Defined.

Lemma seed_inserts_defaults_witness :
  fst (seed string_schema calm (empty_world 0)) = Ok tt /\
  map User.username (users (db seeded)) = initialUsers /\
  List.length (users (db seeded)) = 10%nat /\
  Forall (fun u => User.points u = 0) (users (db seeded)).
Proof.
  destruct (seed_inserts_defaults string_schema calm (empty_world 0)
              (fun name _ => eq_refl)) as [Hempty _].
  destruct (Hempty eq_refl eq_refl eq_refl) as (H1 & H2 & H3 & H4 & _).
  exact (conj H1 (conj H2 (conj H3 H4))).
Defined.

Lemma register_creates_player_witness :
  exists u,
    json_body (fst (post_users string_schema calm register_test seeded)) = Created u /\
    User.points u = 0 /\
    User._id u = next_id seeded /\
    users (db (snd (post_users string_schema calm register_test seeded)))
    = users (db seeded) ++ [u].
Proof.
  destruct (register_creates_player string_schema calm register_test seeded
              (snd (post_users string_schema calm register_test seeded))
              (fst (post_users string_schema calm register_test seeded))
              eq_refl eq_refl)
    as (u & H1 & H2 & H3 & _ & H5 & _).
  exists u. exact (conj H1 (conj H2 (conj H3 H5))).
Defined.

(** Two claims for Rahul, the second on the store the first left. *)
Lemma claim_points_amount_independent_witness :
  6 = draw (random calm) /\ 6 = draw (random calm) /\ 6 = 6.
Proof.
  apply (claim_points_amount_independent string_schema string_schema
           calm calm claim_first claim_first seeded
           (snd (post_claim_points string_schema calm claim_first seeded))
           6 6 6 12);
    vm_compute; reflexivity.
Defined.

Lemma register_reads_username_only_witness :
  post_users string_schema calm register_test seeded
  = post_users string_schema calm register_test_with_points seeded /\
  forall u,
    json_body (fst (post_users string_schema calm register_test seeded)) = Created u ->
    User.points u = 0.
Proof.
  apply (register_reads_username_only string_schema calm
           register_test register_test_with_points seeded).
  vm_compute. reflexivity.
Defined.

(** ** The shape of one step *)

Section Shape.

Variable schema : Schema.

Lemma appended_refl (w : World) : appended w w.
Proof.
  split; [reflexivity | ]. split; [lia | ].
  exists []. rewrite app_nil_r. repeat split; constructor.
Qed.

Lemma appended_bump (w : World) (n : N) :
  appended w {| db := db w; next_id := next_id w + n |}.
Proof.
  split; [reflexivity | ]. split; [cbn; lia | ].
  exists []. cbn. rewrite app_nil_r. repeat split; constructor.
Qed.

Lemma validate_all_ids (n : N) (names : list string) (us : list User.t) :
  UserModel.validate_all (drafts_from schema n names) = inr us ->
  NoDup (map User._id us).
Proof.
  revert n us. induction names as [ | name names IH ]; intros n us.
  - cbn. intros [= <-]. constructor.
  - cbn [drafts_from UserModel.validate_all].
    destruct (castUsername schema (Some (JString name))); [ | discriminate].
    destruct (UserModel.validate_all (drafts_from schema (N.succ n) names))
      as [message | us'] eqn:Hv; [discriminate | ].
    intros [= <-]. cbn [map User._id]. constructor.
    + intros Hin. apply in_map_iff in Hin as (u & Hid & Hu).
      pose proof (validate_all_range schema _ _ _ Hv) as Hr.
      rewrite Forall_forall in Hr. destruct (Hr u Hu) as [_ Hr']. lia.
    + now apply (IH (N.succ n)).
Qed.

Lemma insertMany_appended (fault : option string) (names : list string) (w : World) :
  appended w (snd (UserModel.insertMany schema fault names w)).
Proof.
  unfold UserModel.insertMany, bind. rewrite (create_all_run schema).
  destruct (UserModel.validate_all (drafts_from schema (next_id w) names))
    as [message | us] eqn:Hv.
  - apply appended_bump.
  - unfold store_call. destruct fault as [message | ]; [apply appended_bump | ].
    cbn [snd]. unfold appended.
    cbn [db next_id users pointhistories with_users].
    split; [reflexivity | ]. split; [lia | ].
    exists us. split; [reflexivity | ].
    split.
    + now apply (validate_all_range schema).
    + now apply (validate_all_ids (next_id w) names).
Qed.

Lemma seed_appended (env : Env) (w : World) :
  appended w (snd (seed schema env w)).
Proof.
  unfold seed, bind, UserModel.countDocuments, store_call.
  destruct (query_fault env); cbn [fst snd]; [apply appended_refl | ].
  destruct (Nat.eqb (List.length (users (db w))) 0); [ | apply appended_refl].
  pose proof (insertMany_appended (save_fault env) initialUsers w) as H.
  destruct (UserModel.insertMany schema (save_fault env) initialUsers w)
    as [[us | message] w1]; exact H.
Qed.

Lemma post_users_appended (env : Env) (body : json) (w : World) :
  appended w (snd (post_users schema env body w)).
Proof.
  pose proof (post_users_cases schema env body w) as H. cbn zeta in H.
  destruct (castUsername schema (get_field "username" body)) as [name | message];
    [destruct (save_fault env) | ]; rewrite H; cbn [snd].
  - replace (N.succ (next_id w)) with (next_id w + 1)%N by lia.
    apply appended_bump.
  - unfold appended. cbn [db next_id users pointhistories with_users].
    split; [reflexivity | ]. split; [lia | ].
    eexists. split; [reflexivity | ]. split.
    + constructor; [ | constructor]. cbn. split; [reflexivity | lia].
    + cbn. constructor; [intros [] | constructor].
  - replace (N.succ (next_id w)) with (next_id w + 1)%N by lia.
    apply appended_bump.
Qed.

(** Every request either only appends fresh players (possibly none), or
    is a claim whose player save was accepted. *)
Lemma step_shape (env : Env) (req : Request) (w : World) :
  appended w (step schema env req w) \/ claim_saved env w (step schema env req w).
Proof.
  destruct req as [ | | body | body | ]; cbn [step].
  - left. apply seed_appended.
  - left. rewrite get_users_run. apply appended_refl.
  - left. apply post_users_appended.
  - pose proof (post_claim_points_cases schema env body w) as H. cbn zeta in H.
    pose proof (findById_found schema (query_fault env)
                  (get_field "userId" body) w) as Hfound.
    destruct (fst (UserModel.findById schema (query_fault env)
                     (get_field "userId" body) w)) as [[u | ] | message];
      try (left; rewrite H; apply appended_refl).
    destruct (Hfound u eq_refl) as (_ & Hin & _).
    destruct (save_fault env) as [message | ];
      [left; rewrite H; apply appended_refl | ].
    right. exists u.
    destruct (create_fault env) as [message | ]; rewrite H;
      cbn [snd db next_id users pointhistories with_users]; auto.
  - left. rewrite get_point_history_run. apply appended_refl.
Qed.

Lemma step_not_claim (env : Env) (req : Request) (w : World) :
  (forall body, req <> PostClaimPoints body) ->
  appended w (step schema env req w).
Proof.
  intros Hreq. destruct req as [ | | body | body | ]; cbn [step].
  - apply seed_appended.
  - rewrite get_users_run. apply appended_refl.
  - apply post_users_appended.
  - now destruct (Hreq body).
  - rewrite get_point_history_run. apply appended_refl.
Qed.

End Shape.

(** ** Identifiers and awards along executions *)

Section Kept.

Variable schema : Schema.

Lemma write_points_ids (u : User.t) (us : list User.t) :
  map User._id (UserModel.write_points u us) = map User._id us.
Proof.
  unfold UserModel.write_points. rewrite map_map. apply map_ext.
  intros v. now destruct (N.eqb (User._id v) (User._id u)).
Qed.

Lemma write_points_in (u v' : User.t) (us : list User.t) :
  In v' (UserModel.write_points u us) ->
  exists v, In v us /\ User._id v' = User._id v /\
            User.username v' = User.username v /\
            ((User._id v = User._id u /\ User.points v' = User.points u) \/
             (User._id v <> User._id u /\ v' = v)).
Proof.
  unfold UserModel.write_points. intros Hin.
  apply in_map_iff in Hin as (v & <- & Hv). exists v.
  split; [exact Hv | ].
  destruct (N.eqb_spec (User._id v) (User._id u)) as [Heq | Hne]; cbn; auto.
Qed.

Lemma write_points_keeps (u v : User.t) (us : list User.t) :
  In v us -> exists v', In v' (UserModel.write_points u us) /\
                        User._id v' = User._id v.
Proof.
  intros Hv.
  exists (if N.eqb (User._id v) (User._id u)
          then User.set_points v (User.points u) else v).
  split.
  - unfold UserModel.write_points. apply in_map_iff. now exists v.
  - now destruct (N.eqb (User._id v) (User._id u)).
Qed.

Lemma ids_sound_step (env : Env) (w w' : World) :
  ids_sound w -> appended w w' \/ claim_saved env w w' -> ids_sound w'.
Proof.
  intros (Hu & Hh & Hnd) [(He & Hn & extra & Hus & Hextra & Hnde)
                         | (u & Hin & Hus & Hn & Hhs)].
  - rewrite Forall_forall in Hextra. unfold ids_sound. rewrite He, Hus.
    split; [ | split].
    + intros v Hv. apply in_app_or in Hv as [Hv | Hv].
      * specialize (Hu v Hv). lia.
      * specialize (Hextra v Hv). lia.
    + intros h Hh'. specialize (Hh h Hh'). lia.
    + rewrite map_app, <- app_assoc.
      apply (Permutation_NoDup
               (l := (map User._id (users (db w))
                      ++ map PointHistory._id (pointhistories (db w)))
                     ++ map User._id extra)).
      * rewrite <- app_assoc. apply Permutation_app_head.
        apply Permutation_app_comm.
      * apply NoDup_app; [exact Hnd | exact Hnde | ].
        intros a Ha Ha'. apply in_map_iff in Ha' as (v & <- & Hv).
        specialize (Hextra v Hv).
        apply in_app_or in Ha as [Ha | Ha];
          apply in_map_iff in Ha as (x & Hx & Hxin).
        -- specialize (Hu x Hxin). lia.
        -- specialize (Hh x Hxin). lia.
  - assert (Hu' : forall v', In v' (users (db w')) -> (User._id v' < next_id w')%N).
    { rewrite Hus, Hn. intros v' Hv'.
      apply write_points_in in Hv' as (v & Hv & Hid & _).
      specialize (Hu v Hv). lia. }
    unfold ids_sound. rewrite Hus, write_points_ids. rewrite <- Hus.
    destruct Hhs as [Hhs | Hhs]; rewrite Hhs, Hn.
    + split; [now rewrite <- Hn | ]. split; [ | exact Hnd].
      intros h Hh'. specialize (Hh h Hh'). lia.
    + split; [now rewrite <- Hn | ]. split.
      * intros h Hh'. apply in_app_or in Hh' as [Hh' | [<- | []]].
        -- specialize (Hh h Hh'). lia.
        -- cbn. lia.
      * rewrite map_app, app_assoc. cbn [map award_record PointHistory._id].
        apply NoDup_app; [exact Hnd | repeat constructor; intros [] | ].
        intros a Ha [<- | []].
        apply in_app_or in Ha as [Ha | Ha];
          apply in_map_iff in Ha as (x & Hx & Hxin).
        -- specialize (Hu x Hxin). lia.
        -- specialize (Hh x Hxin). lia.
Qed.

Lemma awards_sound_step (env : Env) (w w' : World) :
  Number.random_range (random env) = true ->
  ids_sound w -> awards_sound (db w) ->
  appended w w' \/ claim_saved env w w' -> awards_sound (db w').
Proof.
  intros Hr (Hu & _ & _) [Hrec Hpts]
         [(He & Hn & extra & Hus & Hextra & _) | (u & Hin & Hus & Hn & Hhs)].
  - rewrite Forall_forall in Hextra. unfold awards_sound. rewrite He, Hus.
    split.
    + intros h Hh. destruct (Hrec h Hh) as [Ha (v & Hv & Hid)].
      split; [exact Ha | ]. exists v. split; [ | exact Hid].
      apply in_or_app. now left.
    + intros v Hv. apply in_app_or in Hv as [Hv | Hv]; [now apply Hpts | ].
      destruct (Hextra v Hv) as [Hp Hrange].
      rewrite award_sum_absent; [lia | ].
      intros h Hh Heq. destruct (Hrec h Hh) as [_ (x & Hx & Hid)].
      specialize (Hu x Hx). lia.
  - pose proof (draw_range _ Hr) as Ha.
    set (a := draw (random env)) in *.
    pose proof (Hpts u Hin) as Hpu.
    assert (Hold : forall v', In v' (users (db w')) ->
              0 <= award_sum (User._id v') (pointhistories (db w))
              /\ award_sum (User._id v') (pointhistories (db w))
                 + (if N.eqb (User._id u) (User._id v') then a else 0)
                 <= User.points v').
    { intros v' Hv'. rewrite Hus in Hv'.
      apply write_points_in in Hv' as (v & Hv & Hid & _ & Hcase).
      pose proof (Hpts v Hv) as Hpv. rewrite Hid.
      cbn [User._id User.set_points User.points] in Hcase.
      destruct Hcase as [[Heq Hp] | [Hne ->]].
      - rewrite Heq, N.eqb_refl. rewrite Heq in Hpv. lia.
      - replace (N.eqb (User._id u) (User._id v)) with false
          by (symmetry; apply N.eqb_neq; congruence).
        lia. }
    assert (Hkeep : forall h, In h (pointhistories (db w)) ->
              1 <= PointHistory.pointsAwarded h <= 10 /\
              exists x, In x (users (db w')) /\ User._id x = PointHistory.userId h).
    { intros h Hh. destruct (Hrec h Hh) as [Hamt (v & Hv & Hid)].
      split; [exact Hamt | ]. rewrite Hus.
      destruct (write_points_keeps
                  (User.set_points u (User.points u + a)) v _ Hv)
        as (v' & Hv' & Hid').
      exists v'. split; [exact Hv' | congruence]. }
    unfold awards_sound. destruct Hhs as [-> | ->].
    + split; [exact Hkeep | ].
      intros v' Hv'. destruct (Hold v' Hv') as [H0 H1].
      destruct (N.eqb (User._id u) (User._id v')); lia.
    + split.
      * intros h Hh. apply in_app_or in Hh as [Hh | [<- | []]];
          [now apply Hkeep | ].
        cbn [award_record PointHistory.pointsAwarded PointHistory.userId].
        split; [exact Ha | ]. rewrite Hus.
        destruct (write_points_keeps
                    (User.set_points u (User.points u + a)) u _ Hin)
          as (u' & Hu' & Hid').
        now exists u'.
      * intros v' Hv'. destruct (Hold v' Hv') as [H0 H1].
        rewrite award_sum_app.
        cbn [award_sum fold_right award_record PointHistory.userId
               PointHistory.pointsAwarded].
        fold a. destruct (N.eqb (User._id u) (User._id v')); lia.
Qed.

Lemma empty_world_sound (n : N) :
  ids_sound (empty_world n) /\ awards_sound (db (empty_world n)).
Proof.
  unfold ids_sound, awards_sound. cbn.
  split; [split; [ | split] | split]; try (intros x []). apply NoDup_nil.
Qed.

Lemma run_ids_sound (trace : list (Env * Request)) (w : World) :
  ids_sound w -> ids_sound (run schema trace w).
Proof.
  revert w. induction trace as [ | [env req] trace IH ]; intros w Hw; cbn [run].
  - exact Hw.
  - apply IH. apply (ids_sound_step env w); [exact Hw | apply step_shape].
Qed.

Lemma run_awards_sound (trace : list (Env * Request)) (w : World) :
  in_range trace = true -> ids_sound w -> awards_sound (db w) ->
  awards_sound (db (run schema trace w)).
Proof.
  revert w. induction trace as [ | [env req] trace IH ]; intros w Hr Hw Ha;
    cbn [run].
  - exact Ha.
  - cbn [in_range forallb fst] in Hr. apply andb_true_iff in Hr as [Hr Hrest].
    apply IH; [exact Hrest | | ].
    + apply (ids_sound_step env w); [exact Hw | apply step_shape].
    + apply (awards_sound_step env w); try assumption. apply step_shape.
Qed.

Lemma NoDup_map_eq {A B : Type} (f : A -> B) (l : list A) (a b : A) :
  NoDup (map f l) -> In a l -> In b l -> f a = f b -> a = b.
Proof.
  induction l as [ | x l IH ]; cbn [map]; intros Hnd Ha Hb Hf; [destruct Ha | ].
  apply NoDup_cons_iff in Hnd as [Hx Hnd].
  destruct Ha as [-> | Ha], Hb as [-> | Hb]; auto.
  - exfalso. apply Hx. rewrite Hf. now apply in_map.
  - exfalso. apply Hx. rewrite <- Hf. now apply in_map.
Qed.

Lemma grown_refl (w : World) : grown w w.
Proof.
  exists (users (db w)), [], []. rewrite !app_nil_r.
  split; [reflexivity | ]. split; [ | reflexivity].
  induction (users (db w)); constructor; auto. repeat split. lia.
Qed.

Lemma grown_trans (w1 w2 w3 : World) : grown w1 w2 -> grown w2 w3 -> grown w1 w3.
Proof.
  intros (k12 & e12 & m12 & Hu12 & Hf12 & Hh12)
         (k23 & e23 & m23 & Hu23 & Hf23 & Hh23).
  rewrite Hu12 in Hf23.
  apply Forall2_app_inv_l in Hf23 as (k1 & k2 & Hk1 & Hk2 & ->).
  exists k1, (k2 ++ e23), (m12 ++ m23).
  split; [now rewrite Hu23, app_assoc | ].
  split; [ | now rewrite Hh23, Hh12, app_assoc].
  clear - Hf12 Hk1. revert k1 Hk1.
  induction Hf12 as [ | a b la lb (Hi & Hn & Hp) Hrest IH ]; intros k1 Hk1.
  - inversion Hk1. constructor.
  - inversion Hk1 as [ | b' c lb' lc (Hi' & Hn' & Hp') Hrest' ]; subst.
    constructor; [ | now apply IH].
    repeat split; [congruence | congruence | lia].
Qed.

Lemma grown_step (env : Env) (w w' : World) :
  Number.random_range (random env) = true ->
  ids_sound w -> appended w w' \/ claim_saved env w w' -> grown w w'.
Proof.
  intros Hr (_ & _ & Hnd)
         [(He & _ & extra & Hus & _) | (u & Hin & Hus & _ & Hhs)].
  - exists (users (db w)), extra, []. rewrite app_nil_r.
    split; [exact Hus | ]. split; [ | exact He].
    clear. induction (users (db w)); constructor; auto. repeat split. lia.
  - apply NoDup_app_remove_r in Hnd.
    pose proof (draw_range _ Hr) as Ha.
    assert (Hmore : exists more,
              pointhistories (db w') = pointhistories (db w) ++ more).
    { destruct Hhs as [-> | ->];
        [exists []; now rewrite app_nil_r | eexists; reflexivity]. }
    destruct Hmore as [more Hmore].
    exists (users (db w')), [], more.
    rewrite app_nil_r. split; [reflexivity | ].
    split; [ | exact Hmore].
    rewrite Hus. clear Hus Hhs Hmore. unfold UserModel.write_points.
    cbn [User._id User.points User.set_points].
    assert (Hsub : forall v, In v (users (db w)) -> In v (users (db w))) by auto.
    revert Hsub. generalize (users (db w)) at 1 3 4 as l.
    induction l as [ | v l IH ]; intros Hsub; cbn [map]; constructor.
    + destruct (N.eqb_spec (User._id v) (User._id u)) as [Heq | Hne].
      * assert (v = u) as ->.
        { apply (NoDup_map_eq User._id (users (db w))); auto.
          apply Hsub. now left. }
        cbn. repeat split. lia.
      * repeat split. lia.
    + apply IH. intros x Hx. apply Hsub. now right.
Qed.

Lemma run_grown (trace : list (Env * Request)) (w : World) :
  in_range trace = true -> ids_sound w -> grown w (run schema trace w).
Proof.
  revert w. induction trace as [ | [env req] trace IH ]; intros w Hr Hw;
    cbn [run].
  - apply grown_refl.
  - cbn [in_range forallb fst] in Hr. apply andb_true_iff in Hr as [Hr Hrest].
    apply (grown_trans w (step schema env req w)).
    + apply (grown_step env); [exact Hr | exact Hw | apply step_shape].
    + apply IH; [exact Hrest | ].
      apply (ids_sound_step env w); [exact Hw | apply step_shape].
Qed.

Lemma points_bound_step (env : Env) (req : Request) (w : World) (B : Z) :
  Number.random_range (random env) = true ->
  0 <= B ->
  (forall u, In u (users (db w)) -> 0 <= User.points u <= B) ->
  forall u, In u (users (db (step schema env req w))) ->
            0 <= User.points u <= B + 10 * claims_of [(env, req)].
Proof.
  intros Hr HB Hold.
  assert (Happ : appended w (step schema env req w) ->
                 forall u, In u (users (db (step schema env req w))) ->
                           0 <= User.points u <= B).
  { intros (_ & _ & extra & Hus & Hextra & _) u Hu.
    rewrite Forall_forall in Hextra. rewrite Hus in Hu.
    apply in_app_or in Hu as [Hu | Hu]; [now apply Hold | ].
    destruct (Hextra u Hu) as [-> _]. lia. }
  destruct req as [ | | body | body | ];
    try (intros u Hu; cbn [claims_of];
         assert (Hb : 0 <= User.points u <= B);
         [apply Happ; [apply step_not_claim; intros b; discriminate | exact Hu]
         | lia]).
  destruct (step_shape schema env (PostClaimPoints body) w)
    as [Ha | (x & Hin & Hus & _)].
  - intros u Hu. cbn [claims_of]. specialize (Happ Ha u Hu). lia.
  - pose proof (draw_range _ Hr) as Ha. pose proof (Hold x Hin) as Hx.
    intros u Hu. rewrite Hus in Hu.
    apply write_points_in in Hu as (v & Hv & _ & _ & Hcase).
    cbn [User._id User.set_points User.points] in Hcase. cbn [claims_of].
    specialize (Hold v Hv).
    destruct Hcase as [[_ ->] | [_ ->]]; lia.
Qed.

Lemma run_points_bound (trace : list (Env * Request)) (w : World) (B : Z) :
  in_range trace = true ->
  0 <= B ->
  (forall u, In u (users (db w)) -> 0 <= User.points u <= B) ->
  forall u, In u (users (db (run schema trace w))) ->
            0 <= User.points u <= B + 10 * claims_of trace.
Proof.
  revert w B. induction trace as [ | [env req] trace IH ]; intros w B Hr HB Hold;
    cbn [run].
  - intros u Hu. cbn [claims_of]. specialize (Hold u Hu). lia.
  - cbn [in_range forallb fst] in Hr. apply andb_true_iff in Hr as [Hr Hrest].
    intros u Hu.
    pose proof (points_bound_step env req w B Hr HB Hold) as Hstep.
    assert (Hc : 0 <= claims_of [(env, req)] <= 1 /\
                 claims_of ((env, req) :: trace)
                 = claims_of [(env, req)] + claims_of trace).
    { destruct req; cbn [claims_of]; lia. }
    destruct Hc as [Hc1 Hc2].
    pose proof (IH (step schema env req w) (B + 10 * claims_of [(env, req)])
                  Hrest ltac:(lia) Hstep u Hu) as Hfin.
    lia.
Qed.

End Kept.

(** ** Error paths of the writing handlers *)

Section Errors.

Variable schema : Schema.

(** X1. A claim whose lookup is rejected (the store fails, or the
    identifier cannot be cast), or whose player is found but cannot be
    saved, is answered 500 with the message of that error, and the state is
    as before: no points are written and no record is inserted. *)
Theorem claim_points_rejected_early (env : Env) (body : json) (w : World)
        (message : string) :
  fst (UserModel.findById schema (query_fault env) (get_field "userId" body) w)
  = Err message \/
  (exists u,
     fst (UserModel.findById schema (query_fault env) (get_field "userId" body) w)
     = Ok (Some u) /\ save_fault env = Some message) ->
  post_claim_points schema env body w
  = ({| status := 500; json_body := Error message |}, w).
Proof.
  pose proof (post_claim_points_cases schema env body w) as H. cbn zeta in H.
  intros [Hl | (u & Hl & Hs)]; rewrite Hl in H; [exact H | ].
  now rewrite Hs in H.
Qed.

(** X2. A claim whose player is saved and whose record insert is then
    rejected is answered 500 with the message, although the player now has
    the increased points; the history has no record of it, so a store in
    which points and recorded awards agreed no longer has them agree. *)
Theorem claim_points_torn (env : Env) (body : json) (w : World) (u : User.t)
        (message : string) :
  Number.random_range (random env) = true ->
  fst (UserModel.findById schema (query_fault env) (get_field "userId" body) w)
  = Ok (Some u) ->
  save_fault env = None ->
  create_fault env = Some message ->
  let w' := snd (post_claim_points schema env body w) in
  fst (post_claim_points schema env body w)
  = {| status := 500; json_body := Error message |} /\
  pointhistories (db w') = pointhistories (db w) /\
  UserModel.lookup (User._id u) (users (db w'))
  = Some (User.set_points u (User.points u + draw (random env))) /\
  (consistent (db w) = true -> consistent (db w') = false).
Proof.
  intros Hr Hu Hs Hc. cbn zeta.
  pose proof (post_claim_points_cases schema env body w) as H. cbn zeta in H.
  rewrite Hu, Hs, Hc in H. rewrite H.
  cbn [fst snd db users pointhistories with_users].
  apply findById_found in Hu as (_ & Hin & Hlook).
  pose proof (write_points_lookup u (User.points u + draw (random env)) _ Hlook)
    as Hnew.
  repeat split; [exact Hnew | ].
  intros Hcons. apply not_true_is_false. intros Hafter.
  rewrite consistent_spec in Hcons, Hafter.
  cbn [users pointhistories] in Hafter.
  apply lookup_some in Hnew as [Hnew _].
  specialize (Hafter _ Hnew). specialize (Hcons _ Hin).
  cbn [User._id User.points User.set_points] in Hafter.
  pose proof (draw_range _ Hr). lia.
Qed.

(** X3. [POST /claim-points] answers 200, 404 or 500 and nothing else; a
    404 means that nothing at all changed; only a claim answered 200 adds a
    record to the history, and it alone carries an award. *)
Theorem claim_points_answers (env : Env) (body : json) (w : World) :
  let r := fst (post_claim_points schema env body w) in
  let w' := snd (post_claim_points schema env body w) in
  (status r = 200 \/ status r = 404 \/ status r = 500) /\
  (status r = 404 -> w' = w /\ json_body r = Error "User not found") /\
  (status r <> 200 ->
   pointhistories (db w') = pointhistories (db w) /\
   exists message, json_body r = Error message) /\
  (status r = 200 ->
   exists a t h, json_body r = Claimed a t /\
                 pointhistories (db w') = pointhistories (db w) ++ [h]).
Proof.
  cbn zeta.
  pose proof (post_claim_points_cases schema env body w) as H. cbn zeta in H.
  destruct (fst (UserModel.findById schema (query_fault env)
                   (get_field "userId" body) w)) as [[u | ] | message];
    [destruct (save_fault env), (create_fault env) | | ]; rewrite H;
    cbn [fst snd status json_body db users pointhistories with_users];
    (split; [auto | ]); (split; [intros; try discriminate; auto | ]);
    (split; [intros; try contradiction; eauto | ]);
    intros; try discriminate; eauto.
Qed.

(** X4. A registration that fails, because the schema rejects the
    username or because the store rejects the insert, is answered 400 with
    the message of the error (also in the second case, which is no fault of
    the request) and leaves both collections as they were; the identifier
    built for the new player is used up. *)
Theorem register_rejected (env : Env) (body : json) (w : World) (message : string) :
  castUsername schema (get_field "username" body) = inr message \/
  (exists name, castUsername schema (get_field "username" body) = inl name /\
                save_fault env = Some message) ->
  post_users schema env body w
  = ({| status := 400; json_body := Error message |},
     {| db := db w; next_id := N.succ (next_id w) |}).
Proof.
  pose proof (post_users_cases schema env body w) as H. cbn zeta in H.
  intros [Hc | (name & Hc & Hs)]; rewrite Hc in H; [exact H | ].
  now rewrite Hs in H.
Qed.

(** X5. The handler does not look for an existing player of the same
    name: registering the same body twice, the schema and the store
    accepting both times, stores two players with the same username, 0
    points each, and different identifiers. *)
Theorem register_twice (env1 env2 : Env) (body : json) (w : World) (name : string) :
  castUsername schema (get_field "username" body) = inl name ->
  save_fault env1 = None -> save_fault env2 = None ->
  let w1 := snd (post_users schema env1 body w) in
  let w2 := snd (post_users schema env2 body w1) in
  exists u1 u2,
    users (db w2) = users (db w) ++ [u1; u2] /\
    fst (post_users schema env1 body w) = {| status := 201; json_body := Created u1 |} /\
    fst (post_users schema env2 body w1) = {| status := 201; json_body := Created u2 |} /\
    User.username u1 = name /\ User.username u2 = name /\
    User.points u1 = 0 /\ User.points u2 = 0 /\
    User._id u1 <> User._id u2.
Proof.
  intros Hc Hs1 Hs2. cbn zeta.
  pose proof (post_users_cases schema env1 body w) as H1. cbn zeta in H1.
  rewrite Hc, Hs1 in H1. rewrite H1. cbn [fst snd].
  pose proof (post_users_cases schema env2 body
                (with_users {| db := db w; next_id := N.succ (next_id w) |}
                   (users (db w)
                    ++ [ {| User._id := next_id w; User.username := name;
                            User.points := User.default_points |} ])))
    as H2.
  cbn zeta in H2. rewrite Hc, Hs2 in H2. rewrite H2.
  cbn [fst snd db users next_id with_users].
  eexists _, _. rewrite <- app_assoc. cbn [app].
  repeat split. cbn [User._id]. lia.
Qed.

End Errors.

(** ** What every execution keeps *)

Section Executions.

Variable schema : Schema.

(** X6. Along every execution from an empty store in which
    [Math.random()] keeps to its range, with any faults, every award record
    holds an amount of 1 to 10 and the identifier of a stored player. *)
Theorem execution_records_valid (trace : list (Env * Request)) (n : N) :
  in_range trace = true ->
  let w := run schema trace (empty_world n) in
  forall h, In h (pointhistories (db w)) ->
    1 <= PointHistory.pointsAwarded h <= 10 /\
    exists u, In u (users (db w)) /\ User._id u = PointHistory.userId h.
Proof.
  intros Hr. cbn zeta.
  destruct (empty_world_sound n) as [Hi Ha].
  destruct (run_awards_sound schema trace _ Hr Hi Ha) as [H _]. exact H.
Qed.

(** X7. Along every execution from an empty store in which
    [Math.random()] keeps to its range, also when claims are torn, a player's
    points are never below the sum of the awards recorded for the player,
    which is never negative, and never above ten times the number of claim
    requests made. *)
Theorem execution_points_bounds (trace : list (Env * Request)) (n : N) :
  in_range trace = true ->
  let w := run schema trace (empty_world n) in
  forall u, In u (users (db w)) ->
    0 <= award_sum (User._id u) (pointhistories (db w)) <= User.points u /\
    User.points u <= 10 * claims_of trace.
Proof.
  intros Hr. cbn zeta. intros u Hu.
  destruct (empty_world_sound n) as [Hi Ha].
  destruct (run_awards_sound schema trace _ Hr Hi Ha) as [_ H].
  split; [now apply H | ].
  pose proof (run_points_bound schema trace (empty_world n) 0 Hr
                ltac:(lia) ltac:(intros x []) u Hu).
  lia.
Qed.

(** X8. Between any two moments of an execution from an empty store in
    which [Math.random()] keeps to its range, no player is
    removed, moved, renamed or given another identifier, no player loses
    points, and no award record is removed or changed: players and records
    are only added, at the end of their collections. *)
Theorem execution_grows (before after : list (Env * Request)) (n : N) :
  in_range after = true ->
  grown (run schema before (empty_world n))
        (run schema after (run schema before (empty_world n))).
Proof.
  intros Hr. apply run_grown; [exact Hr | ].
  apply run_ids_sound. apply empty_world_sound.
Qed.

Lemma sort_desc_newest {A : Type} (key : A -> Z) (x : A) (l : list A) :
  (forall y, In y l -> key y < key x) ->
  sort_desc key (l ++ [x]) = x :: sort_desc key l.
Proof.
  induction l as [ | y l IH ]; intros Hlt; cbn [app sort_desc fold_right].
  - reflexivity.
  - fold (sort_desc key (l ++ [x])). fold (sort_desc key l).
    rewrite IH by (intros z Hz; apply Hlt; now right).
    cbn [insert_desc].
    replace (key y <? key x) with true; [reflexivity | ].
    symmetry. apply Z.ltb_lt. apply Hlt. now left.
Qed.

(** X9. After a successful claim for player [u], a [GET /users] lists
    [u] with the new total, and a [GET /point-history] lists the new record
    with [u]'s identifier and username; when all earlier records have an
    earlier timestamp, the new record is the first of the list. *)
Theorem claim_then_reads (env env' : Env) (body : json) (w : World) (u : User.t) :
  fst (UserModel.findById schema (query_fault env) (get_field "userId" body) w)
  = Ok (Some u) ->
  save_fault env = None ->
  create_fault env = None ->
  query_fault env' = None ->
  let w' := snd (post_claim_points schema env body w) in
  let p := {| PointHistory.p_id := next_id w;
              PointHistory.p_userId := Some (User._id u, User.username u);
              PointHistory.p_pointsAwarded := draw (random env);
              PointHistory.p_timestamp := now env |} in
  (exists us,
     fst (get_users env' w') = {| status := 200; json_body := Users us |} /\
     In (User.set_points u (User.points u + draw (random env))) us) /\
  (exists hs,
     fst (get_point_history env' w') = {| status := 200; json_body := History hs |} /\
     In p hs /\
     ((forall h, In h (pointhistories (db w)) -> PointHistory.timestamp h < now env) ->
      exists rest, hs = p :: rest)).
Proof.
  intros Hu Hs Hc Hq. cbn zeta.
  pose proof (post_claim_points_cases schema env body w) as H. cbn zeta in H.
  rewrite Hu, Hs, Hc in H. rewrite H. clear H.
  rewrite get_users_run, get_point_history_run, Hq.
  cbn [fst snd db users pointhistories with_users].
  apply findById_found in Hu as (_ & Hin & Hlook).
  pose proof (write_points_lookup u (User.points u + draw (random env)) _ Hlook)
    as Hnew.
  set (us' := UserModel.write_points _ (users (db w))) in *.
  set (h := {| PointHistory._id := next_id w;
               PointHistory.userId := User._id u;
               PointHistory.pointsAwarded := draw (random env);
               PointHistory.timestamp := now env |}).
  assert (Hp : PointHistoryModel.populate us' h
               = {| PointHistory.p_id := next_id w;
                    PointHistory.p_userId := Some (User._id u, User.username u);
                    PointHistory.p_pointsAwarded := draw (random env);
                    PointHistory.p_timestamp := now env |}).
  { unfold PointHistoryModel.populate, h. cbn [PointHistory.userId].
    rewrite Hnew. reflexivity. }
  split.
  - eexists. split; [reflexivity | ].
    apply (Permutation_in _ (Permutation_sym (sort_desc_perm _ _))).
    now apply lookup_some in Hnew.
  - eexists. split; [reflexivity | ]. split.
    + rewrite <- Hp. apply in_map.
      apply (Permutation_in _ (Permutation_sym (sort_desc_perm _ _))).
      apply in_or_app. right. now left.
    + intros Hearlier.
      rewrite (sort_desc_newest PointHistory.timestamp h) by exact Hearlier.
      cbn [map]. rewrite Hp. eexists. reflexivity.
Qed.

End Executions.

(** ** The client *)

Section Client.

Variable schema : Schema.

Lemma sort_desc_sorted_id {A : Type} (key : A -> Z) (l : list A) :
  StronglySorted (desc key) l -> sort_desc key l = l.
Proof.
  induction 1 as [ | x l Hl IH Hx ]; cbn [sort_desc fold_right];
    [reflexivity | ].
  fold (sort_desc key l). rewrite IH.
  destruct Hx as [ | y l Hy Hrest ]; cbn [insert_desc]; [reflexivity | ].
  replace (key x <? key y) with false; [reflexivity | ].
  symmetry. apply Z.ltb_ge. exact Hy.
Qed.

Lemma sort_desc_idem {A : Type} (key : A -> Z) (l : list A) :
  sort_desc key (sort_desc key l) = sort_desc key l.
Proof. apply sort_desc_sorted_id, sort_desc_sorted. Qed.

Lemma trim_start_blank (s : string) : blank s = true -> trim_start s = "".
Proof.
  induction s as [ | c s IH ]; cbn [blank trim_start]; [reflexivity | ].
  intros H. apply andb_true_iff in H as [-> H]. now apply IH.
Qed.

Lemma trim_start_not_blank (s : string) :
  blank s = false ->
  exists c rest, trim_start s = String c rest /\ is_space c = false.
Proof.
  induction s as [ | c s IH ]; cbn [blank trim_start]; [discriminate | ].
  destruct (is_space c) eqn:Hc; cbn [andb]; [exact IH | ].
  intros _. now exists c, s.
Qed.

Lemma trim_end_not_space (c : Ascii.ascii) (s : string) :
  is_space c = false -> falsy (trim_end (String c s)) = false.
Proof.
  intros Hc. cbn [trim_end]. rewrite Hc. now destruct (trim_end s).
Qed.

(** [!s.trim()] holds exactly of the strings of white space. *)
Lemma falsy_trim (s : string) : falsy (trim s) = blank s.
Proof.
  unfold trim. destruct (blank s) eqn:Hb.
  - now rewrite trim_start_blank.
  - destruct (trim_start_not_blank s Hb) as (c & rest & -> & Hc).
    now apply trim_end_not_space.
Qed.

Lemma axios_get_users (env : Env) (w : World) :
  App.axios (get_users env) w
  = (match query_fault env with
     | Some _ => Err "Request failed"
     | None => Ok (Users (sort_desc User.points (users (db w))))
     end, w).
Proof.
  unfold App.axios. rewrite get_users_run. now destruct (query_fault env).
Qed.

Lemma axios_get_point_history (env : Env) (w : World) :
  App.axios (get_point_history env) w
  = (match query_fault env with
     | Some _ => Err "Request failed"
     | None =>
         Ok (History
               (map (PointHistoryModel.populate (users (db w)))
                  (sort_desc PointHistory.timestamp (pointhistories (db w)))))
     end, w).
Proof.
  unfold App.axios. rewrite get_point_history_run. now destruct (query_fault env).
Qed.

Lemma fetchUsers_run (env : Env) (s : App.State) (w : World) :
  App.fetchUsers env s w
  = (match query_fault env with
     | Some _ => s
     | None => App.setUsers s (sort_desc User.points (users (db w)))
     end, w).
Proof.
  unfold App.fetchUsers. rewrite axios_get_users.
  destruct (query_fault env); [reflexivity | ]. now rewrite sort_desc_idem.
Qed.

Lemma fetchPointHistory_run (env : Env) (s : App.State) (w : World) :
  App.fetchPointHistory env s w
  = (match query_fault env with
     | Some _ => s
     | None =>
         App.setPointHistory s
           (map (PointHistoryModel.populate (users (db w)))
              (sort_desc PointHistory.timestamp (pointhistories (db w))))
     end, w).
Proof.
  unfold App.fetchPointHistory. rewrite axios_get_point_history.
  now destruct (query_fault env).
Qed.

(** X10. [fetchUsers] never changes the store.  When the request
    succeeds, the list the client keeps is the very list the server
    answered (sorting it again changes nothing), a permutation of the
    stored players in descending order of points; when the request is
    rejected, the client's state stays as it was. *)
Theorem fetchUsers_shows_leaderboard (env : Env) (s : App.State) (w : World) :
  let s' := fst (App.fetchUsers env s w) in
  snd (App.fetchUsers env s w) = w /\
  match query_fault env with
  | Some _ => s' = s
  | None =>
      fst (get_users env w) = {| status := 200; json_body := Users (App.users s') |} /\
      Permutation (App.users s') (users (db w)) /\
      StronglySorted (fun a b => User.points b <= User.points a) (App.users s') /\
      s' = App.setUsers s (App.users s')
  end.
Proof.
  cbn zeta. rewrite fetchUsers_run, get_users_run. cbn [fst snd].
  split; [reflexivity | ].
  destruct (query_fault env); [reflexivity | ]. cbn [App.users App.setUsers].
  split; [reflexivity | ]. split; [apply sort_desc_perm | ].
  split; [apply (sort_desc_sorted User.points) | reflexivity].
Qed.

(** X11. The two fetches the component starts when it mounts do not
    depend on the order in which they are served: either order gives the
    same client state and leaves the store as it was. *)
Theorem fetches_commute (fetching listing : Env) (s : App.State) (w : World) :
  let (s1, w1) := App.fetchUsers fetching s w in
  let (s2, w2) := App.fetchPointHistory listing s w in
  App.fetchPointHistory listing s1 w1 = App.fetchUsers fetching s2 w2 /\
  snd (App.fetchPointHistory listing s1 w1) = w.
Proof.
  rewrite fetchUsers_run, fetchPointHistory_run.
  rewrite fetchUsers_run, fetchPointHistory_run. cbn [snd].
  split; [ | reflexivity].
  destruct (query_fault fetching), (query_fault listing); reflexivity.
Qed.

(** X12. [addUser] sends a request exactly when the typed username has a
    character that is not white space: for a username of white space only
    nothing is sent and nothing changes; otherwise the server builds a
    player (its identifier generator advances), whatever comes of it. *)
Theorem addUser_guard (posting fetching : Env) (s : App.State) (w : World) :
  (blank (App.newUsername s) = true ->
   App.addUser schema posting fetching s w = (s, w)) /\
  (blank (App.newUsername s) = false ->
   next_id (snd (App.addUser schema posting fetching s w)) = N.succ (next_id w)).
Proof.
  unfold App.addUser. rewrite falsy_trim. split; intros ->; [reflexivity | ].
  unfold App.axios.
  pose proof (post_users_cases schema posting
                (JObject [("username", JString (App.newUsername s))]) w) as H.
  cbn zeta in H.
  destruct (castUsername schema _) as [name | message];
    [destruct (save_fault posting) | ]; rewrite H; cbn [status andb Z.leb Z.ltb];
    try reflexivity.
  cbn. rewrite fetchUsers_run. reflexivity.
Qed.

Lemma axios_post_users (env : Env) (body : json) (w : World) :
  App.axios (post_users schema env body) w
  = match castUsername schema (get_field "username" body), save_fault env with
    | inl name, None =>
        let u := {| User._id := next_id w; User.username := name;
                    User.points := User.default_points |} in
        (Ok (Created u),
         with_users {| db := db w; next_id := N.succ (next_id w) |}
           (users (db w) ++ [u]))
    | _, _ => (Err "Request failed", {| db := db w; next_id := N.succ (next_id w) |})
    end.
Proof.
  unfold App.axios.
  pose proof (post_users_cases schema env body w) as H. cbn zeta in H.
  destruct (castUsername schema (get_field "username" body)) as [name | message];
    [destruct (save_fault env) | ]; rewrite H; reflexivity.
Qed.

(** X13. When the typed username is not blank, the schema accepts it and
    both requests succeed, [addUser] registers the username as typed,
    untrimmed: the store gains one player with what the schema makes of
    exactly that string and 0 points; the input is cleared; and the client's
    list is the new leaderboard, which holds the new player.  The rest of
    the client's state is unchanged. *)
Theorem addUser_registers (posting fetching : Env) (s : App.State) (w : World)
        (name : string) :
  blank (App.newUsername s) = false ->
  castUsername schema (Some (JString (App.newUsername s))) = inl name ->
  save_fault posting = None ->
  query_fault fetching = None ->
  let s' := fst (App.addUser schema posting fetching s w) in
  let w' := snd (App.addUser schema posting fetching s w) in
  let u := {| User._id := next_id w; User.username := name; User.points := 0 |} in
  users (db w') = users (db w) ++ [u] /\
  pointhistories (db w') = pointhistories (db w) /\
  App.newUsername s' = "" /\
  App.users s' = sort_desc User.points (users (db w')) /\
  In u (App.users s') /\
  s' = App.setUsers (App.setNewUsername s "") (App.users s').
Proof.
  intros Hb Hc Hs Hq. cbn zeta. unfold App.addUser.
  rewrite falsy_trim, Hb, axios_post_users.
  change (get_field "username"
            (JObject [("username", JString (App.newUsername s))]))
    with (Some (JString (App.newUsername s))).
  rewrite Hc, Hs. cbv beta iota zeta. rewrite fetchUsers_run, Hq.
  cbn [fst snd db users pointhistories with_users App.users App.newUsername
         App.setUsers App.setNewUsername].
  repeat split.
  apply (Permutation_in _ (Permutation_sym (sort_desc_perm _ _))).
  apply in_or_app. right. now left.
Qed.

(** X14. When the server rejects the registration (the schema rejects
    the username, or the store rejects the insert), [addUser] leaves the
    client's state as it was, the typed username included, and does not
    fetch the list; both collections of the store are as before. *)
Theorem addUser_rejected (posting fetching : Env) (s : App.State) (w : World)
        (message : string) :
  blank (App.newUsername s) = false ->
  castUsername schema (Some (JString (App.newUsername s))) = inr message \/
  save_fault posting = Some message ->
  App.addUser schema posting fetching s w
  = (s, {| db := db w; next_id := N.succ (next_id w) |}).
Proof.
  intros Hb Hrej. unfold App.addUser.
  rewrite falsy_trim, Hb, axios_post_users.
  change (get_field "username"
            (JObject [("username", JString (App.newUsername s))]))
    with (Some (JString (App.newUsername s))).
  destruct Hrej as [-> | ->]; [reflexivity | ].
  now destruct (castUsername schema _).
Qed.

Lemma axios_post_claim_points (env : Env) (body : json) (w : World) :
  App.axios (post_claim_points schema env body) w
  = (if status (fst (post_claim_points schema env body w)) =? 200
     then Ok (json_body (fst (post_claim_points schema env body w)))
     else Err "Request failed",
     snd (post_claim_points schema env body w)).
Proof.
  unfold App.axios.
  pose proof (post_claim_points_cases schema env body w) as H. cbn zeta in H.
  destruct (fst (UserModel.findById schema (query_fault env)
                   (get_field "userId" body) w)) as [[u | ] | message];
    [destruct (save_fault env), (create_fault env) | | ]; rewrite H;
    reflexivity.
Qed.

Lemma claimPoints_run (claiming fetching listing : Env) (s : App.State) (w : World) :
  falsy (App.selectedUser s) = false ->
  let body := JObject [("userId", JString (App.selectedUser s))] in
  let r := fst (post_claim_points schema claiming body w) in
  let w' := snd (post_claim_points schema claiming body w) in
  App.claimPoints schema claiming fetching listing s w
  = if status r =? 200 then
      (App.setLoading
         (fst (App.fetchPointHistory listing
                 (fst (App.fetchUsers fetching
                         (App.setLastPoints (App.setLoading s true)
                            (App.pointsAwarded_of (json_body r))) w')) w'))
         false, w')
    else (App.setLoading s false, w').
Proof.
  intros Hsel. cbn zeta. unfold App.claimPoints. rewrite Hsel.
  cbv zeta. cbn [App.selectedUser App.setLoading].
  rewrite axios_post_claim_points.
  destruct (status _ =? 200); [ | reflexivity].
  set (w' := snd (post_claim_points schema claiming _ w)).
  set (s1 := App.setLastPoints _ _).
  pose proof (f_equal snd (fetchUsers_run fetching s1 w')) as Hw2.
  destruct (App.fetchUsers fetching s1 w') as [s2 w2]. cbn [fst snd] in *.
  subst w2.
  pose proof (f_equal snd (fetchPointHistory_run listing s2 w')) as Hw3.
  destruct (App.fetchPointHistory listing s2 w') as [s3 w3]. cbn [fst snd] in *.
  now subst w3.
Qed.

(** X15. [claimPoints] without a selected player sends nothing and
    changes nothing.  With one, whatever the server answers and whichever
    of the three requests fails, it ends with [loading] false again, and it
    never changes the selection or the typed username. *)
Theorem claimPoints_settles (claiming fetching listing : Env) (s : App.State)
        (w : World) :
  let s' := fst (App.claimPoints schema claiming fetching listing s w) in
  (App.selectedUser s = "" ->
   App.claimPoints schema claiming fetching listing s w = (s, w)) /\
  (App.selectedUser s <> "" -> App.loading s' = false) /\
  App.selectedUser s' = App.selectedUser s /\
  App.newUsername s' = App.newUsername s.
Proof.
  cbn zeta. destruct (falsy (App.selectedUser s)) eqn:Hsel.
  - assert (Hempty : App.selectedUser s = "")
      by (destruct (App.selectedUser s); [reflexivity | discriminate]).
    unfold App.claimPoints. rewrite Hsel. cbn [fst].
    repeat split; auto. now intros [].
  - rewrite (claimPoints_run claiming fetching listing s w Hsel). cbv zeta.
    split; [intros Hempty; rewrite Hempty in Hsel; discriminate | ].
    destruct (status _ =? 200); cbn [fst]; [ | repeat split].
    rewrite fetchUsers_run, fetchPointHistory_run. cbn [fst].
    destruct (query_fault fetching), (query_fault listing); repeat split.
Qed.

(** X16. A claim from the client that succeeds throughout: with a
    selected identifier that the server resolves to player [u], a random
    number of the range and no rejected call, [claimPoints] ends with
    [lastPoints] the drawn amount, of 1 to 10, [loading] false, the client's
    list the new leaderboard, on which [u] has its points increased by that
    amount, and the client's history holding the new record with [u]'s
    username; the store is the one the claim left. *)
Theorem claimPoints_success (claiming fetching listing : Env) (s : App.State)
        (w : World) (u : User.t) :
  App.selectedUser s <> "" ->
  Number.random_range (random claiming) = true ->
  fst (UserModel.findById schema (query_fault claiming)
         (Some (JString (App.selectedUser s))) w) = Ok (Some u) ->
  save_fault claiming = None ->
  create_fault claiming = None ->
  query_fault fetching = None ->
  query_fault listing = None ->
  let a := draw (random claiming) in
  let s' := fst (App.claimPoints schema claiming fetching listing s w) in
  let w' := snd (App.claimPoints schema claiming fetching listing s w) in
  w' = snd (post_claim_points schema claiming
              (JObject [("userId", JString (App.selectedUser s))]) w) /\
  App.lastPoints s' = Some a /\ 1 <= a <= 10 /\
  App.loading s' = false /\
  App.users s' = sort_desc User.points (users (db w')) /\
  In (User.set_points u (User.points u + a)) (App.users s') /\
  In {| PointHistory.p_id := next_id w;
        PointHistory.p_userId := Some (User._id u, User.username u);
        PointHistory.p_pointsAwarded := a;
        PointHistory.p_timestamp := now claiming |}
     (App.pointHistory s').
Proof.
  intros Hsel Hr Hu Hs Hc Hqf Hql. cbn zeta.
  assert (Hfalsy : falsy (App.selectedUser s) = false)
    by (destruct (App.selectedUser s); [contradiction | reflexivity]).
  rewrite (claimPoints_run claiming fetching listing s w Hfalsy). cbv zeta.
  pose proof (post_claim_points_cases schema claiming
                (JObject [("userId", JString (App.selectedUser s))]) w) as H.
  cbn zeta in H.
  change (get_field "userId"
            (JObject [("userId", JString (App.selectedUser s))]))
    with (Some (JString (App.selectedUser s))) in H.
  rewrite Hu, Hs, Hc in H. rewrite H. clear H.
  cbn [fst snd status json_body Z.eqb Pos.eqb App.pointsAwarded_of].
  rewrite fetchUsers_run, Hqf. cbn [fst].
  rewrite fetchPointHistory_run, Hql.
  cbn [fst snd db users pointhistories with_users App.users App.lastPoints
         App.loading App.pointHistory App.setUsers App.setLastPoints
         App.setLoading App.setPointHistory].
  apply findById_found in Hu as (_ & Hin & Hlook).
  pose proof (write_points_lookup u (User.points u + draw (random claiming)) _
                Hlook) as Hnew.
  split; [reflexivity | ]. split; [reflexivity | ].
  split; [now apply draw_range | ]. split; [reflexivity | ].
  split; [reflexivity | ]. split.
  - apply (Permutation_in _ (Permutation_sym (sort_desc_perm _ _))).
    now apply lookup_some in Hnew.
  - set (h := {| PointHistory._id := next_id w;
                 PointHistory.userId := User._id u;
                 PointHistory.pointsAwarded := draw (random claiming);
                 PointHistory.timestamp := now claiming |}).
    set (us' := UserModel.write_points _ (users (db w))) in *.
    replace {| PointHistory.p_id := next_id w;
               PointHistory.p_userId := Some (User._id u, User.username u);
               PointHistory.p_pointsAwarded := draw (random claiming);
               PointHistory.p_timestamp := now claiming |}
      with (PointHistoryModel.populate us' h).
    + apply in_map.
      apply (Permutation_in _ (Permutation_sym (sort_desc_perm _ _))).
      apply in_or_app. right. now left.
    + unfold PointHistoryModel.populate, h. cbn [PointHistory.userId].
      rewrite Hnew. reflexivity.
Qed.

(** X17. When the server does not answer the claim with 200 (the player
    is unknown, or a call was rejected), [claimPoints] only resets
    [loading]: [lastPoints], the list and the history of the client stay as
    they were and nothing is fetched, also after a torn claim, which did
    change the player's points in the store. *)
Theorem claimPoints_failure (claiming fetching listing : Env) (s : App.State)
        (w : World) :
  App.selectedUser s <> "" ->
  status (fst (post_claim_points schema claiming
                 (JObject [("userId", JString (App.selectedUser s))]) w)) <> 200 ->
  App.claimPoints schema claiming fetching listing s w
  = (App.setLoading s false,
     snd (post_claim_points schema claiming
            (JObject [("userId", JString (App.selectedUser s))]) w)).
Proof.
  intros Hsel Hst.
  assert (Hfalsy : falsy (App.selectedUser s) = false)
    by (destruct (App.selectedUser s); [contradiction | reflexivity]).
  rewrite (claimPoints_run claiming fetching listing s w Hfalsy). cbv zeta.
  apply Z.eqb_neq in Hst. now rewrite Hst.
Qed.

End Client.

(** ** These theorems at the sample inputs *)

Lemma claim_points_rejected_early_witness :
  post_claim_points string_schema calm claim_malformed seeded
  = ({| status := 500; json_body := Error "Cast to ObjectId failed" |}, seeded).
Proof.
  apply (claim_points_rejected_early string_schema calm claim_malformed seeded).
  left. vm_compute. reflexivity.
Defined.

Lemma claim_points_torn_witness :
  fst (post_claim_points string_schema record_insert_fails claim_first seeded)
  = {| status := 500; json_body := Error "connection lost" |} /\
  pointhistories
    (db (snd (post_claim_points string_schema record_insert_fails claim_first seeded)))
  = pointhistories (db seeded) /\
  consistent
    (db (snd (post_claim_points string_schema record_insert_fails claim_first seeded)))
  = false.
Proof.
  destruct (claim_points_torn string_schema record_insert_fails claim_first seeded
              {| User._id := 0%N; User.username := "Rahul"; User.points := 0 |}
              "connection lost" eq_refl eq_refl eq_refl eq_refl)
    as (H1 & H2 & _ & H4).
  exact (conj H1 (conj H2 (H4 eq_refl))).
Defined.

Lemma register_rejected_witness :
  post_users string_schema calm (JObject []) seeded
  = ({| status := 400; json_body := Error "User validation failed: username" |},
     {| db := db seeded; next_id := N.succ (next_id seeded) |}).
Proof.
  apply (register_rejected string_schema calm (JObject []) seeded).
  left. reflexivity.
Defined.

Lemma register_twice_witness :
  exists u1 u2,
    users (db (snd (post_users string_schema calm register_test
                      (snd (post_users string_schema calm register_test seeded)))))
    = users (db seeded) ++ [u1; u2] /\
    User.username u1 = "Test" /\ User.username u2 = "Test" /\
    User._id u1 <> User._id u2.
Proof.
  destruct (register_twice string_schema calm calm register_test seeded "Test"
              eq_refl eq_refl eq_refl)
    as (u1 & u2 & H1 & _ & _ & H2 & H3 & _ & _ & H4).
  exists u1, u2. exact (conj H1 (conj H2 (conj H3 H4))).
Defined.

(** The record of the last claim of the sample execution. *)
Lemma execution_records_valid_witness :
  let h := {| PointHistory._id := 13%N; PointHistory.userId := 0%N;
              PointHistory.pointsAwarded := 10;
              PointHistory.timestamp := 1700000060000 |} in
  1 <= PointHistory.pointsAwarded h <= 10 /\
  exists u,
    In u (users (db (run string_schema sample_trace (empty_world 0)))) /\
    User._id u = PointHistory.userId h.
Proof.
  intros h.
  apply (execution_records_valid string_schema sample_trace 0).
  - vm_compute. reflexivity.
  - vm_compute. right. left. reflexivity.
Defined.

(** Rahul at the end of the sample execution: 22 points, of which the
    history records 16, after four claim requests. *)
Lemma execution_points_bounds_witness :
  let u := {| User._id := 0%N; User.username := "Rahul"; User.points := 22 |} in
  0 <= award_sum (User._id u)
         (pointhistories (db (run string_schema sample_trace (empty_world 0))))
    <= User.points u /\
  User.points u <= 10 * claims_of sample_trace.
Proof.
  intros u.
  apply (execution_points_bounds string_schema sample_trace 0).
  - vm_compute. reflexivity.
  - vm_compute. left. reflexivity.
Defined.

Lemma execution_grows_witness :
  grown seeded (run string_schema sample_trace seeded).
Proof.
  apply (execution_grows string_schema [(calm, Startup)] sample_trace 0).
  vm_compute. reflexivity.
Defined.

Lemma claim_then_reads_witness :
  exists rest,
    fst (get_point_history calm
           (snd (post_claim_points string_schema calm claim_first seeded)))
    = {| status := 200;
         json_body :=
           History
             ({| PointHistory.p_id := 10%N;
                 PointHistory.p_userId := Some (0%N, "Rahul");
                 PointHistory.p_pointsAwarded := 6;
                 PointHistory.p_timestamp := 1700000000000 |} :: rest) |}.
Proof.
  destruct (claim_then_reads string_schema calm calm claim_first seeded
              {| User._id := 0%N; User.username := "Rahul"; User.points := 0 |}
              eq_refl eq_refl eq_refl eq_refl)
    as [_ (hs & Hhs & _ & Hfirst)].
  destruct (Hfirst (fun h (Hh : In h []) => match Hh with end)) as [rest ->].
  exists rest. exact Hhs.
Defined.

Lemma addUser_registers_witness :
  users (db (snd (App.addUser string_schema calm calm typed_name seeded)))
  = users (db seeded)
    ++ [ {| User._id := 10%N; User.username := " Test"; User.points := 0 |} ] /\
  App.newUsername (fst (App.addUser string_schema calm calm typed_name seeded)) = "".
Proof.
  destruct (addUser_registers string_schema calm calm typed_name seeded " Test"
              eq_refl eq_refl eq_refl eq_refl)
    as (H1 & _ & H3 & _).
  exact (conj H1 H3).
Defined.

Lemma addUser_rejected_witness :
  App.addUser string_schema player_save_fails calm typed_name seeded
  = (typed_name, {| db := db seeded; next_id := N.succ (next_id seeded) |}).
Proof.
  apply (addUser_rejected string_schema player_save_fails calm typed_name seeded
           "connection lost").
  - reflexivity.
  - right. reflexivity.
Defined.

Lemma claimPoints_success_witness :
  App.lastPoints
    (fst (App.claimPoints string_schema calm calm calm chose_first seeded))
  = Some 6 /\
  App.loading
    (fst (App.claimPoints string_schema calm calm calm chose_first seeded))
  = false /\
  In {| User._id := 0%N; User.username := "Rahul"; User.points := 6 |}
     (App.users
        (fst (App.claimPoints string_schema calm calm calm chose_first seeded))).
Proof.
  destruct (claimPoints_success string_schema calm calm calm chose_first seeded
              {| User._id := 0%N; User.username := "Rahul"; User.points := 0 |}
              ltac:(discriminate) eq_refl eq_refl eq_refl eq_refl eq_refl eq_refl)
    as (_ & H2 & _ & H4 & _ & H6 & _).
  exact (conj H2 (conj H4 H6)).
Defined.

Lemma claimPoints_failure_witness :
  App.claimPoints string_schema record_insert_fails calm calm chose_first seeded
  = (App.setLoading chose_first false,
     snd (post_claim_points string_schema record_insert_fails claim_first seeded)).
Proof.
  apply (claimPoints_failure string_schema record_insert_fails calm calm
           chose_first seeded); vm_compute; discriminate.
Defined.
